(** * tp.qt.mvc: the property-binding model, embedded and verified

    A shallow embedding of [src/tp/qt/mvc.py]: the [UiProperty] records, the
    table [SUPPORT_WIDGET_TYPES], and the methods of [Model].  Python objects
    with identity (widgets) live in a heap and are referred to by address;
    the methods of [Model] are computations in a state-and-exception monad
    over that heap and the fields of the model. *)

From Stdlib Require Import ZArith String.
From stdpp Require Import base option list gmap strings.

Local Open Scope string_scope.
Local Open Scope list_scope.

(** ** Python values *)

(** The values that travel between properties and widgets ([Any] in the
    source): [None], booleans, integers, strings, and any other object,
    known only by its identity. *)
Inductive Value : Type :=
  | VNone
  | VBool (b : bool)
  | VInt (z : Z)
  | VStr (s : string)
  | VObj (addr : nat).

#[global] Instance Value_eq_dec : EqDecision Value.
Proof. solve_decision. Defined.

(** [v is None] *)
Definition is_None (v : Value) : bool :=
  match v with VNone => true | _ => false end.

(** ** The dataclasses *)

(** [UiProperty].  The four declared fields, and [dyn] for the attributes that
    [setattr] adds to an instance at run time (auxiliary facets). *)
Record UiProperty : Type := mkUiProperty {
  name : string;
  value : Value;
  default : Value;
  type_ : Value;
  dyn : gmap string Value
}.

(** [UiProperty(name, value, default, type)] with the dataclass defaults. *)
Definition UiProperty_new (n : string) (v d t : Value) : UiProperty :=
  mkUiProperty n v d t ∅.

Definition set_value (v : Value) (p : UiProperty) : UiProperty :=
  mkUiProperty (name p) v (default p) (type_ p) (dyn p).

Definition set_default (v : Value) (p : UiProperty) : UiProperty :=
  mkUiProperty (name p) (value p) v (type_ p) (dyn p).

(** [getattr(p, k)]; [None] stands for [AttributeError].  The attribute
    [name] is the field [name], unless [setattr] has bound it to a value that
    is not a string: Python checks no annotation, and that value is then what
    the attribute holds (see [setattr]). *)
Definition getattr (p : UiProperty) (k : string) : option Value :=
  if decide (k = "value") then Some (value p)
  else if decide (k = "default") then Some (default p)
  else if decide (k = "type") then Some (type_ p)
  else if decide (k = "name") then
    Some (match dyn p !! "name" with Some v => v | None => VStr (name p) end)
  else dyn p !! k.

(** [setattr(p, k, v)].  Every write is performed.  The field [name] is
    declared [str] and is a string here; a string written to the attribute
    [name] rebinds the field, and a value of any other type written to it is
    kept in [dyn] under the key ["name"], where [getattr] looks first. *)
Definition setattr (p : UiProperty) (k : string) (v : Value) : UiProperty :=
  if decide (k = "value") then set_value v p
  else if decide (k = "default") then set_default v p
  else if decide (k = "type") then
    mkUiProperty (name p) (value p) (default p) v (dyn p)
  else if decide (k = "name") then
    match v with
    | VStr s => mkUiProperty s (value p) (default p) (type_ p) (delete "name" (dyn p))
    | _ => mkUiProperty (name p) (value p) (default p) (type_ p) (<["name" := v]> (dyn p))
    end
  else mkUiProperty (name p) (value p) (default p) (type_ p) (<[k := v]> (dyn p)).

(** [UiPropertyGetSet] *)
Record UiPropertyGetSet : Type := mkGetSet {
  getter : string;
  setter : string
}.

(** [UiPropertyWidgetUpdate] *)
Record UiPropertyWidgetUpdate : Type := mkWidgetUpdate {
  save_signal : string;
  getsets : list UiPropertyGetSet;
  skip_children : bool
}.

(** The two-argument constructor calls of the table: [skip_children] keeps
    its default [True]. *)
Definition WidgetUpdate (sig : string) (gs : list UiPropertyGetSet)
  : UiPropertyWidgetUpdate := mkWidgetUpdate sig gs true.

(** ** Widget types and the capability table *)

(** The exact run-time type of an object: the eighteen classes that are keys
    of [SUPPORT_WIDGET_TYPES], and every other class, by name. *)
Inductive WidgetType : Type :=
  | QCheckBox | QLineEdit | QComboBox | QProgressBar
  | BaseCheckBoxWidget
  | BaseComboBox | ComboBoxRegularWidget | ComboBoxSearchableWidget
  | RadioButtonGroup
  | SearchLineEdit
  | BaseLineEdit | StringLineEditWidget | FloatLineEditWidget | IntLineEditWidget
  | StringEdit | IntEdit | FloatEdit
  | BaseLabel
  | OtherType (class_name : string).

#[global] Instance WidgetType_eq_dec : EqDecision WidgetType.
Proof. solve_decision. Defined.

(** [SUPPORT_WIDGET_TYPES.get(t)]: lookup by exact type. *)
Definition SUPPORT_WIDGET_TYPES (t : WidgetType) : option UiPropertyWidgetUpdate :=
  match t with
  | QCheckBox => Some (WidgetUpdate "toggled" [mkGetSet "isChecked" "setChecked"])
  | QLineEdit => Some (WidgetUpdate "textChanged" [mkGetSet "text" "setText"])
  | QComboBox => Some (WidgetUpdate "itemChanged" [mkGetSet "currentIndex" "setCurrentIndex"])
  | QProgressBar => Some (WidgetUpdate "valueChanged" [mkGetSet "value" "setValue"])
  | BaseCheckBoxWidget => Some (WidgetUpdate "stateChanged" [mkGetSet "isChecked" "setChecked"])
  | BaseComboBox => Some (WidgetUpdate "currentIndexChanged" [mkGetSet "currentIndex" "setCurrentIndex"])
  | ComboBoxRegularWidget => Some (WidgetUpdate "itemChanged" [mkGetSet "current_index" "set_index"])
  | ComboBoxSearchableWidget => Some (WidgetUpdate "itemChanged" [mkGetSet "current_index" "set_index"])
  | RadioButtonGroup => Some (WidgetUpdate "toggled" [mkGetSet "checked_index" "set_checked"])
  | SearchLineEdit => Some (WidgetUpdate "textChanged" [mkGetSet "text" "setText"])
  | BaseLineEdit => Some (WidgetUpdate "textChanged" [mkGetSet "text" "setText"])
  | StringLineEditWidget => Some (WidgetUpdate "textChanged" [mkGetSet "text" "set_text"])
  | FloatLineEditWidget => Some (WidgetUpdate "textChanged" [mkGetSet "value" "set_value"])
  | IntLineEditWidget => Some (WidgetUpdate "textChanged" [mkGetSet "value" "set_value"])
  | StringEdit => Some (WidgetUpdate "textChanged" [mkGetSet "text" "set_text"])
  | IntEdit => Some (WidgetUpdate "textChanged" [mkGetSet "text" "set_text"])
  | FloatEdit => Some (WidgetUpdate "textChanged" [mkGetSet "text" "set_text"])
  | BaseLabel => Some (WidgetUpdate "textChanged" [mkGetSet "text" "setText"])
  | OtherType _ => None
  end.

(** [t in SUPPORT_WIDGET_TYPES] *)
Definition supported (t : WidgetType) : bool :=
  match SUPPORT_WIDGET_TYPES t with Some _ => true | None => false end.

(** ** The property registry *)

(** [Model.initialize_properties] of the base class; a subclass overrides it
    to return its own list. *)
Definition initialize_properties : list UiProperty := [].

(** The assignment [ui_property.default = ui_property.value] under its test. *)
Definition fill_default (ui_property : UiProperty) : UiProperty :=
  if is_None (default ui_property)
  then set_default (value ui_property) ui_property
  else ui_property.

(** The body of the loop of [setup_properties]: the record is stored under
    its name and then, if its default is [None], given its value as default.
    The dictionary holds the object itself, so it sees the assignment. *)
Definition setup_step (tool_properties : gmap string UiProperty)
    (ui_property : UiProperty) : gmap string UiProperty :=
  <[name ui_property := fill_default ui_property]> tool_properties.

(** [properties or self.initialize_properties()]: [None] and the empty list
    are both falsy.  [hook] is what [self.initialize_properties()] returns. *)
Definition properties_or (hook : list UiProperty) (properties : option (list UiProperty))
  : list UiProperty :=
  match properties with
  | Some (p :: ps) => p :: ps
  | _ => hook
  end.

(** [Model.setup_properties] *)
Definition setup_properties (hook : list UiProperty)
    (properties : option (list UiProperty)) : gmap string UiProperty :=
  foldl setup_step ∅ (properties_or hook properties).

(** ** Exceptions, events and the toolkit *)

(** The exceptions that the methods of [Model] can let escape. *)
Inductive exn : Type := KeyError | TypeError | AttributeError | RuntimeError.

Inductive Res (A : Type) : Type :=
  | Ok (a : A)
  | Raise (e : exn).
Arguments Ok {A} a.
Arguments Raise {A} e.

(** A listener is an opaque callable, known by its identity.  Calling it is
    recorded; it then returns or raises, and does not call back into the
    model. *)
Definition Listener : Type := nat.

(** What the model does to the outside, in the order it does it:
    [logger.warning] of an unsupported widget, a listener called with a value,
    and a setter of a widget called with a value. *)
Inductive Event : Type :=
  | Warned (widget : nat) (property : option string)
  | Called (listener : Listener) (v : Value)
  | SetterCall (widget : nat) (setter_name : string) (v : Value).

#[global] Instance Event_eq_dec : EqDecision Event.
Proof. solve_decision. Defined.

Definition is_Called (e : Event) : bool :=
  match e with Called _ _ => true | _ => false end.

(** The widget toolkit and the listeners are not part of this module.  What
    the model needs from them: whether a class has a signal of a given name
    ([getattr(widget, save_signal)]), what a getter returns, and what a
    setter does: it fails, or it changes the internal state of the widget and
    emits some signals; what the caller of a setter sees when a slot run by
    one of those signals raised; and what a listener does when it is called
    with a value: it returns, or it raises. *)
Class Toolkit : Type := {
  St : Type;
  has_signal : WidgetType → string → bool;
  call_getter : WidgetType → St → string → Res Value;
  call_setter : WidgetType → St → string → Value → Res (St * list string);
  slot_raised : exn → Res unit;
  listener_result : Listener → Value → Res unit
}.

Section Model.
Context `{TK : Toolkit}.

(** A widget: its exact type, the dynamic properties ["prop"] and
    ["extraProperties"] ([None] when unset; the latter a dictionary from facet
    name to accessor name, in insertion order), the [blockSignals] flag, the
    signals of this widget that were connected to [Model.save_properties]
    (one entry per [connect]), and the toolkit's own state. *)
Record Widget : Type := mkWidget {
  wtype : WidgetType;
  prop : option string;
  extraProperties : option (list (string * string));
  signalsBlocked : bool;
  connections : list string;
  wstate : St
}.

(** The heap of widgets with the fields of [Model], and the events so far.
    [_widgets] is the [WeakRefList]: a list of addresses; an address that is
    no longer in the heap is a widget that was destroyed. *)
Record World : Type := mkWorld {
  heap : gmap nat Widget;
  _widgets : list nat;
  _properties : gmap string UiProperty;
  _listeners : gmap string (list Listener);
  _show_warnings : bool;
  _block_save : bool;
  trace : list Event
}.

(** [Model.__init__], for a class whose [initialize_properties] returns
    [hook], in a heap [h] of widgets. *)
Definition Model_init (hook : list UiProperty) (h : gmap nat Widget) : World :=
  mkWorld h [] (setup_properties hook None) ∅ true false [].

Definition set_heap (h : gmap nat Widget) (W : World) : World :=
  mkWorld h (_widgets W) (_properties W) (_listeners W)
          (_show_warnings W) (_block_save W) (trace W).

Definition set_widgets (l : list nat) (W : World) : World :=
  mkWorld (heap W) l (_properties W) (_listeners W)
          (_show_warnings W) (_block_save W) (trace W).

Definition set_properties (ps : gmap string UiProperty) (W : World) : World :=
  mkWorld (heap W) (_widgets W) ps (_listeners W)
          (_show_warnings W) (_block_save W) (trace W).

Definition set_listeners (ls : gmap string (list Listener)) (W : World) : World :=
  mkWorld (heap W) (_widgets W) (_properties W) ls
          (_show_warnings W) (_block_save W) (trace W).

Definition set_block_save (b : bool) (W : World) : World :=
  mkWorld (heap W) (_widgets W) (_properties W) (_listeners W)
          (_show_warnings W) b (trace W).

Definition add_event (e : Event) (W : World) : World :=
  mkWorld (heap W) (_widgets W) (_properties W) (_listeners W)
          (_show_warnings W) (_block_save W) (trace W ++ [e]).

(** *** The monad: state that survives an exception *)

Definition M (A : Type) : Type := World → Res A * World.

Definition ret {A} (a : A) : M A := λ W, (Ok a, W).

Definition raise {A} (e : exn) : M A := λ W, (Raise e, W).

Definition bind {A B} (m : M A) (k : A → M B) : M B :=
  λ W, match m W with
       | (Ok a, W') => k a W'
       | (Raise e, W') => (Raise e, W')
       end.

Notation "'let*' x ':=' c 'in' k" := (bind c (λ x, k))
  (at level 10, x name, c at level 100, k at level 200).
Notation "c ;; k" := (bind c (λ _, k))
  (at level 100, k at level 200, right associativity).

Definition modify (f : World → World) : M unit := λ W, (Ok tt, f W).

(** [for x in l: body(x)] *)
Fixpoint for_each {A} (l : list A) (body : A → M unit) : M unit :=
  match l with
  | [] => ret tt
  | x :: l' => body x ;; for_each l' body
  end.

(** A loop that carries a local variable. *)
Fixpoint for_fold {A B} (l : list A) (b : B) (body : B → A → M B) : M B :=
  match l with
  | [] => ret b
  | x :: l' => let* b' := body b x in for_fold l' b' body
  end.

(** [try: body finally: cleanup] *)
Definition try_finally {A} (body : M A) (cleanup : M unit) : M A :=
  λ W, match body W with
       | (r, W1) =>
           match cleanup W1 with
           | (Ok _, W2) => (r, W2)
           | (Raise e, W2) => (Raise e, W2)
           end
       end.

(** Dereferencing a widget; a destroyed one raises, as the bindings do. *)
Definition get_widget (i : nat) : M Widget :=
  λ W, match heap W !! i with
       | Some w => (Ok w, W)
       | None => (Raise RuntimeError, W)
       end.

Definition put_widget (i : nat) (w : Widget) : M unit :=
  modify (λ W, set_heap (<[i := w]> (heap W)) W).

Definition log_event (e : Event) : M unit := modify (add_event e).

(** [self.properties[key]]; the key is what [widget.property("prop")] gave,
    and [None] is never a key. *)
Definition properties_getitem (key : option string) : M UiProperty :=
  λ W, match key with
       | Some k =>
           match _properties W !! k with
           | Some p => (Ok p, W)
           | None => (Raise KeyError, W)
           end
       | None => (Raise KeyError, W)
       end.

(** [self._listeners.get(key, [])] *)
Definition listeners_get (key : option string) (W : World) : list Listener :=
  match key with
  | Some k =>
      match _listeners W !! k with
      | Some ls => ls
      | None => []
      end
  | None => []
  end.

(** *** Python dictionaries in insertion order *)

(** [d[k] = v]: an existing key keeps its place. *)
Fixpoint dict_set {V} (k : string) (v : V) (d : list (string * V)) : list (string * V) :=
  match d with
  | [] => [(k, v)]
  | (k', v') :: d' =>
      if decide (k' = k) then (k, v) :: d' else (k', v') :: dict_set k v d'
  end.

Fixpoint dict_get {V} (k : string) (d : list (string * V)) : option V :=
  match d with
  | [] => None
  | (k', v') :: d' => if decide (k' = k) then Some v' else dict_get k d'
  end.

(** *** The methods of [Model] *)

(** [Model.widget_property_name] *)
Definition widget_property_name (w : Widget) : option string := prop w.

(** [Model.property_widgets]: the widgets of the list that are alive. *)
Definition property_widgets (W : World) : list nat :=
  filter (λ i, is_Some (heap W !! i)) (_widgets W).

(** [Model.link_property] *)
Definition link_property (widget : nat) (ui_property_name : string) : M bool :=
  λ W,
  if decide (widget ∈ property_widgets W) then (Ok false, W)
  else
    (let* w := get_widget widget in
     let* modified :=
       match SUPPORT_WIDGET_TYPES (wtype w) with
       | Some widget_info =>
           if has_signal (wtype w) (save_signal widget_info)
           then
             put_widget widget
               (mkWidget (wtype w) (prop w) (extraProperties w) (signalsBlocked w)
                         (connections w ++ [save_signal widget_info]) (wstate w)) ;;
             ret true
           else raise AttributeError
       | None => ret false
       end in
     λ W1,
     if negb modified && _show_warnings W1
     then (log_event (Warned widget (Some ui_property_name)) ;; ret false) W1
     else
       (let* w1 := get_widget widget in
        put_widget widget
          (mkWidget (wtype w1) (Some ui_property_name) (extraProperties w1)
                    (signalsBlocked w1) (connections w1) (wstate w1)) ;;
        modify (λ W2, set_widgets (_widgets W2 ++ [widget]) W2) ;;
        ret true) W1) W.

(** The test of the loop of [widgets_linked_to_property], negated:
    [child_property is None or child_property != property_name] skips. *)
Definition tagged_with (property_name : string) (W : World) (i : nat) : bool :=
  match heap W !! i with
  | Some w =>
      match prop w with
      | Some child_property => bool_decide (child_property = property_name)
      | None => false
      end
  | None => false
  end.

(** [Model.widgets_linked_to_property] *)
Definition widgets_linked_to_property (property_name : string) (W : World) : list nat :=
  filter (λ i, tagged_with property_name W i) (property_widgets W).

(** [enumerate(l)] *)
Definition enumerate {A} (l : list A) : list (nat * A) := imap (λ i x, (i, x)) l.

(** The facet of the property that the pair at index [i] of [getsets] reads
    and writes: ["value" if i == 0 else getset.getter]. *)
Definition facet_of (i : nat) (getset : UiPropertyGetSet) : string :=
  match i with O => "value" | S _ => getter getset end.

(** A loop that carries a local variable and can fail, outside the state. *)
Fixpoint fold_res {A B} (l : list A) (b : B) (body : B → A → Res B) : Res B :=
  match l with
  | [] => Ok b
  | x :: l' =>
      match body b x with
      | Ok b' => fold_res l' b' body
      | Raise e => Raise e
      end
  end.

(** [result[k] = getattr(widget, accessor)()] *)
Definition read_into (w : Widget) (k accessor : string) (result : list (string * Value))
  : Res (list (string * Value)) :=
  match call_getter (wtype w) (wstate w) accessor with
  | Ok v => Ok (dict_set k v result)
  | Raise e => Raise e
  end.

(** [extra_properties]: a copy of the dictionary ["extraProperties"], empty
    when the widget has none. *)
Definition extra_properties_of (w : Widget) : list (string * string) :=
  match extraProperties w with
  | Some d => foldl (λ acc '(k, v), dict_set k v acc) [] d
  | None => []
  end.

(** The supported branch of [widget_values]: the getters of the table, then
    the accessors of ["extraProperties"]. *)
Definition read_facets (w : Widget) (widget_info : UiPropertyWidgetUpdate)
  : Res (list (string * Value)) :=
  match fold_res (enumerate (getsets widget_info)) []
          (λ result '(i, getset), read_into w (facet_of i getset) (getter getset) result)
  with
  | Ok result =>
      fold_res (extra_properties_of w) result
        (λ result '(k, v), read_into w k v result)
  | Raise e => Raise e
  end.

(** [Model.widget_values] *)
Definition widget_values (widget : nat) : M (list (string * Value)) :=
  let* w := get_widget widget in
  match SUPPORT_WIDGET_TYPES (wtype w) with
  | Some widget_info => λ W, (read_facets w widget_info, W)
  | None =>
      λ W, if _show_warnings W
           then (log_event (Warned widget (widget_property_name w)) ;; ret []) W
           else ret [] W
  end.

(** [listener(v)]: the call, and then what the listener does. *)
Definition call_listener (l : Listener) (v : Value) : M unit :=
  log_event (Called l v) ;;
  λ W, (listener_result l v, W).

(** [setattr(self.properties[property_name], k, v)] *)
Definition properties_setattr (property_name : option string) (k : string) (v : Value)
  : M unit :=
  let* p := properties_getitem property_name in
  match property_name with
  | Some n => modify (λ W, set_properties (<[n := setattr p k v]> (_properties W)) W)
  | None => ret tt
  end.

(** The body of the loop of [save_properties]. *)
Definition save_widget (widget : nat) : M unit :=
  let* w := get_widget widget in
  let property_name := widget_property_name w in
  let* widget_values := widget_values widget in
  for_each widget_values (λ '(k, v), properties_setattr property_name k v) ;;
  λ W,
  for_each (listeners_get property_name W)
    (λ listener,
       for_each widget_values
         (λ '(k, v), if decide (k = "value") then call_listener listener v else ret tt)) W.

(** [Model.save_properties] *)
Definition save_properties : M unit :=
  λ W,
  if _block_save W then (Ok tt, W)
  else for_each (property_widgets W) save_widget W.

(** A slot connected to a signal that the toolkit emits. *)
Definition run_slot (slot : M unit) : M unit :=
  λ W, match slot W with
       | (Ok _, W') => (Ok tt, W')
       | (Raise e, W') => (slot_raised e, W')
       end.

(** The signals that a setter emitted reach [save_properties] once for each
    [connect], unless the widget blocks its signals. *)
Definition deliver (w : Widget) (emitted : list string) : M unit :=
  if signalsBlocked w then ret tt
  else
    for_each emitted
      (λ s, for_each (connections w)
              (λ c, if decide (c = s) then run_slot save_properties else ret tt)).

(** [setter(value)] inside its [try]: a [TypeError] is raised again as a
    [TypeError] with a message, any other exception passes. *)
Definition call_widget_setter (widget : nat) (w : Widget) (setter_name : string)
    (v : Value) : M unit :=
  log_event (SetterCall widget setter_name v) ;;
  match call_setter (wtype w) (wstate w) setter_name v with
  | Raise TypeError => raise TypeError
  | Raise e => raise e
  | Ok (st, emitted) =>
      put_widget widget
        (mkWidget (wtype w) (prop w) (extraProperties w) (signalsBlocked w)
                  (connections w) st) ;;
      deliver w emitted
  end.

(** [Model.update_widget] *)
Definition update_widget (widget : nat) : M unit :=
  let* w := get_widget widget in
  let widget_name := widget_property_name w in
  let* modified :=
    match SUPPORT_WIDGET_TYPES (wtype w) with
    | Some widget_info =>
        for_fold (enumerate (getsets widget_info)) false
          (λ _ '(i, getset),
             let* p := properties_getitem widget_name in
             let* v := match getattr p (facet_of i getset) with
                       | Some v => ret v
                       | None => raise AttributeError
                       end in
             let* w' := get_widget widget in
             call_widget_setter widget w' (setter getset) v ;;
             ret true)
    | None => ret false
    end in
  λ W,
  if negb modified && _show_warnings W
  then log_event (Warned widget widget_name) W
  else (Ok tt, W).

(** [widget.blockSignals(False)] *)
Definition blockSignals (widget : nat) (b : bool) : M unit :=
  let* w := get_widget widget in
  put_widget widget
    (mkWidget (wtype w) (prop w) (extraProperties w) b (connections w) (wstate w)).

(** [Model.update_widget_from_property] *)
Definition update_widget_from_property (ui_property_name : string) : M unit :=
  modify (set_block_save true) ;;
  λ W,
  (let property_widgets := widgets_linked_to_property ui_property_name W in
   for_each property_widgets update_widget ;;
   for_each property_widgets (λ widget, blockSignals widget false) ;;
   modify (set_block_save false)) W.

(** [Model.update_widgets_from_properties] *)
Definition update_widgets_from_properties : M unit :=
  modify (set_block_save true) ;;
  try_finally
    (λ W,
     (let property_widgets := property_widgets W in
      for_each property_widgets update_widget ;;
      for_each property_widgets (λ widget, blockSignals widget false)) W)
    (modify (set_block_save false)).

(** [Model.reset_properties] *)
Definition reset_properties (update_widgets : bool) : M unit :=
  modify (λ W, set_properties ((λ p, set_value (default p) p) <$> _properties W) W) ;;
  if update_widgets then update_widgets_from_properties else ret tt.

(** [Model.update_property] *)
Definition update_property (ui_property_name : string) (v : Value) : M unit :=
  λ W,
  match _properties W !! ui_property_name with
  | None => (Ok tt, W)
  | Some p =>
      (modify (set_properties (<[ui_property_name := set_value v p]> (_properties W))) ;;
       update_widget_from_property ui_property_name ;;
       λ W1,
       for_each (listeners_get (Some ui_property_name) W1)
         (λ listener, call_listener listener v) W1) W
  end.

(** [Model.listen] *)
Definition listen (ui_property_name : string) (listener : Listener) : M unit :=
  modify (λ W,
    set_listeners
      (<[ui_property_name := (listeners_get (Some ui_property_name) W ++ [listener])%list]>
         (_listeners W)) W).

End Model.


(** ** Discovery: the walk over the object tree *)

(** An object bound to an attribute: its exact type and its identity. *)
Record Obj : Type := mkObj {
  obj_type : WidgetType;
  obj_addr : nat
}.

#[global] Instance Obj_eq_dec : EqDecision Obj.
Proof. solve_decision. Defined.

(** A [QObject] as the walk sees it: its [__dict__], in insertion order, and
    its [children()]. *)
#[warnings="-register-all"] Inductive QObject : Type :=
  | mkQObject (dict : list (string * Obj)) (children : list QObject).

Definition __dict__ (widget : QObject) : list (string * Obj) :=
  match widget with mkQObject d _ => d end.

Definition children (widget : QObject) : list QObject :=
  match widget with mkQObject _ c => c end.

(** The loop [for attr in w.__dict__: if type(getattr(w, attr)) in
    SUPPORT_WIDGET_TYPES: yield attr, getattr(w, attr)]. *)
Definition linkable_attributes (d : list (string * Obj)) : list (string * Obj) :=
  filter (λ a, supported (obj_type a.2) = true) d.

(** [Model.iterate_linkable_properties]; the generator as the list of what it
    yields. *)
Fixpoint iterate_linkable_properties (widget : QObject) : list (string * Obj) :=
  match widget with
  | mkQObject d cs =>
      linkable_attributes d ++
      flat_map (λ child,
                  linkable_attributes (__dict__ child) ++
                  iterate_linkable_properties child) cs
  end.

(** The walk that the specification describes, to compare with: every object
    of the tree once, an object before its children. *)
Fixpoint each_object_once (widget : QObject) : list (string * Obj) :=
  match widget with
  | mkQObject d cs => linkable_attributes d ++ flat_map each_object_once cs
  end.

(** The objects of the tree under [widget]: [widget] itself, then those
    under each of its [children()], an object before its children. *)
Fixpoint objects (widget : QObject) : list QObject :=
  match widget with
  | mkQObject d cs => mkQObject d cs :: flat_map objects cs
  end.

(** ** Properties by name *)

(** The records of a list that carry a given name, in order. *)
Definition named (k : string) (ps : list UiProperty) : list UiProperty :=
  filter (λ p, name p = k) ps.

(** ** A toolkit to run the model on *)

(** The state of a widget is the value it shows.  Every getter returns it.
    A setter refuses [None] with a [TypeError], and otherwise stores its
    argument and emits the signal that the table calls the save signal of the
    class.  Every class has every signal; an exception in a slot is reported
    and the setter returns; every listener returns. *)
Definition demo_toolkit : Toolkit :=
  {| St := Value;
     has_signal := λ _ _, true;
     call_getter := λ _ st _, Ok st;
     call_setter := λ t _ _ v,
       match v with
       | VNone => Raise TypeError
       | _ => Ok (v, match SUPPORT_WIDGET_TYPES t with
                     | Some info => [save_signal info]
                     | None => []
                     end)
       end;
     slot_raised := λ _, Ok tt;
     listener_result := λ _ _, Ok tt |}.

Module Demo.

#[local] Existing Instance demo_toolkit.

(** A widget of a given class showing a value, not yet linked. *)
Definition fresh (t : WidgetType) (v : Value) : Widget :=
  mkWidget t None None false [] v.

(** A widget as [link_property] leaves it. *)
Definition linked (t : WidgetType) (sig n : string) (v : Value) : Widget :=
  mkWidget t (Some n) None false [sig] v.

(** A progress bar showing [3] and a line edit showing ["a"], both free. *)
Definition heap0 : gmap nat Widget :=
  <[0%nat := fresh QProgressBar (VInt 3)]>
  (<[1%nat := fresh QLineEdit (VStr "a")]>
  (<[2%nat := fresh (OtherType "QPushButton") VNone]> ∅)).

Definition volume : UiProperty := UiProperty_new "volume" (VInt 0) VNone VNone.

(** A model with the property ["volume"]. *)
Definition W0 : World := Model_init [volume] heap0.

(** Two progress bars showing [3] and [8], both linked to ["volume"]; no
    listener yet. *)
Definition W2_silent : World :=
  mkWorld
    (<[0%nat := linked QProgressBar "valueChanged" "volume" (VInt 3)]>
     (<[1%nat := linked QProgressBar "valueChanged" "volume" (VInt 8)]> ∅))
    [0%nat; 1%nat]
    (setup_properties [volume] None)
    ∅ true false [].

(** The same after [listen("volume", L10)] and then [listen("volume", L11)]. *)
Definition W2 : World :=
  (listen "volume" 11%nat (listen "volume" 10%nat W2_silent).2).2.

(** A progress bar linked to ["volume"] whose property holds [None]: the
    setter will refuse it. *)
Definition Wbad : World :=
  mkWorld
    (<[0%nat := linked QProgressBar "valueChanged" "volume" (VInt 3)]> ∅)
    [0%nat]
    (<["volume" := UiProperty_new "volume" VNone VNone VNone]> ∅)
    ∅ true false [].

(** A progress bar tracked under a name that is not a property. *)
Definition Wstale : World :=
  mkWorld
    (<[0%nat := linked QProgressBar "valueChanged" "gone" (VInt 3)]> ∅)
    [0%nat]
    (setup_properties [volume] None)
    ∅ true false [].

(** A model whose warnings were switched off. *)
Definition Wquiet : World :=
  mkWorld heap0 [] (setup_properties [volume] None) ∅ false false [].

(** A window with one child that holds a check box. *)
Definition check_box : Obj := mkObj QCheckBox 7.

Definition window : QObject :=
  mkQObject [] [mkQObject [("enabled", check_box)] []].

End Demo.

(** ** What a call leaves alone *)

Section Frames.
Context `{TK : Toolkit}.

(** The part of a widget that no setter and no [blockSignals] touches. *)
Definition static (w : Widget) : WidgetType * option string
    * option (list (string * string)) * list string :=
  (wtype w, prop w, extraProperties w, connections w).

(** [steady W W' evs]: from [W] to [W'] the fields of the model are the same,
    the widgets kept their type, tags and connections, and the events [evs]
    were added. *)
Record steady (W W' : World) (evs : list Event) : Prop := mkSteady {
  steady_widgets : _widgets W' = _widgets W;
  steady_properties : _properties W' = _properties W;
  steady_listeners : _listeners W' = _listeners W;
  steady_warnings : _show_warnings W' = _show_warnings W;
  steady_block : _block_save W' = _block_save W;
  steady_heap : ∀ i, static <$> (heap W' !! i) = static <$> (heap W !! i);
  steady_trace : trace W' = trace W ++ evs
}.

(** No listener is called in [evs]. *)
Definition no_listener_called (evs : list Event) : Prop :=
  Forall (λ e, is_Called e = false) evs.

(** The same world with more events. *)
Definition add_events (evs : list Event) (W : World) : World :=
  mkWorld (heap W) (_widgets W) (_properties W) (_listeners W)
          (_show_warnings W) (_block_save W) (trace W ++ evs).

(** The assignments of the first inner loop of [save_properties] to one
    record. *)
Definition setattr_all (p : UiProperty) (facets : list (string * Value)) : UiProperty :=
  foldl (λ p kv, setattr p kv.1 kv.2) p facets.

(** The events of one widget in [save_properties]: a warning for a widget of
    an unsupported class; for a supported one whose facets have the key
    ["value"], one call of each listener of its property, in the order of
    registration, with that value. *)
Definition save_events (W : World) (i : nat) : list Event :=
  match heap W !! i with
  | None => []
  | Some w =>
      match SUPPORT_WIDGET_TYPES (wtype w) with
      | None => if _show_warnings W then [Warned i (prop w)] else []
      | Some widget_info =>
          match read_facets w widget_info with
          | Ok facets =>
              match dict_get "value" facets with
              | Some v => map (λ l, Called l v) (listeners_get (prop w) W)
              | None => []
              end
          | Raise _ => []
          end
      end
  end.

(** The registry after the assignments of one widget in [save_properties]:
    the record that its tag names takes every facet read from the widget. *)
Definition save_record (W : World) (i : nat) : gmap string UiProperty :=
  match heap W !! i with
  | Some w =>
      match SUPPORT_WIDGET_TYPES (wtype w), prop w with
      | Some widget_info, Some n =>
          match read_facets w widget_info, _properties W !! n with
          | Ok facets, Some p => <[n := setattr_all p facets]> (_properties W)
          | _, _ => _properties W
          end
      | _, _ => _properties W
      end
  | None => _properties W
  end.

End Frames.

(** ** What a call touches *)

Section Touches.
Context `{TK : Toolkit}.

(** The widget an event is about; a call of a listener is about none. *)
Definition event_widget (e : Event) : option nat :=
  match e with
  | Warned i _ => Some i
  | SetterCall i _ _ => Some i
  | Called _ _ => None
  end.

Definition is_SetterCall (e : Event) : bool :=
  match e with SetterCall _ _ _ => true | _ => false end.

(** [only_touches P W W']: from [W] to [W'] the widgets outside [P] are what
    they were, and the events added that are about a widget are about one
    of [P]. *)
Definition only_touches (P : nat → Prop) (W W' : World) : Prop :=
  (∀ j, ¬ P j → heap W' !! j = heap W !! j) ∧
  ∃ evs, trace W' = trace W ++ evs ∧
         Forall (λ e, ∀ i, event_widget e = Some i → P i) evs.

(** Every widget of the registry that is alive carries a tag. *)
Definition tracked_are_tagged (W : World) : Prop :=
  ∀ i, i ∈ property_widgets W → ∃ w, heap W !! i = Some w ∧ is_Some (prop w).

(** The loop [for listener in ls: listener(v)]: the listeners it calls are
    those of the list up to and including the first that raises, and it ends
    as that one does. *)
Fixpoint called_listeners (ls : list Listener) (v : Value) : list Listener :=
  match ls with
  | [] => []
  | l :: ls' =>
      match listener_result l v with
      | Ok _ => l :: called_listeners ls' v
      | Raise _ => [l]
      end
  end.

Fixpoint listeners_outcome (ls : list Listener) (v : Value) : Res unit :=
  match ls with
  | [] => Ok tt
  | l :: ls' =>
      match listener_result l v with
      | Ok _ => listeners_outcome ls' v
      | Raise e => Raise e
      end
  end.

(** The widget as a successful [link_property] leaves it. *)
Definition link_widget (w : Widget) (sig n : string) : Widget :=
  mkWidget (wtype w) (Some n) (extraProperties w) (signalsBlocked w)
           (connections w ++ [sig]) (wstate w).

End Touches.

(** ** A toolkit whose setters accept every value *)

(** As [demo_toolkit], but no setter refuses a value, and [QComboBox] has no
    signal called [itemChanged], as in Qt. *)
Definition accepting_toolkit : Toolkit :=
  {| St := Value;
     has_signal := λ t s,
       negb (bool_decide (t = QComboBox) && bool_decide (s = "itemChanged"));
     call_getter := λ _ st _, Ok st;
     call_setter := λ t _ _ v,
       Ok (v, match SUPPORT_WIDGET_TYPES t with
              | Some info => [save_signal info]
              | None => []
              end);
     slot_raised := λ _, Ok tt;
     listener_result := λ _ _, Ok tt |}.

Module Plain.

#[local] Existing Instance accepting_toolkit.

(** A combo box, not yet linked. *)
Definition combo : Widget := mkWidget QComboBox None None false [] (VInt 0).

(** A model with the property ["volume"] and one free combo box. *)
Definition W0 : World :=
  Model_init [UiProperty_new "volume" (VInt 0) VNone VNone] (<[0%nat := combo]> ∅).

(** A progress bar showing [3], linked to ["volume"], with one listener. *)
Definition W1 : World :=
  mkWorld
    (<[0%nat := mkWidget QProgressBar (Some "volume") None false ["valueChanged"]
                  (VInt 3)]> ∅)
    [0%nat]
    (setup_properties [UiProperty_new "volume" (VInt 0) VNone VNone] None)
    (<["volume" := [10%nat]]> ∅)
    true false [].

End Plain.

(** ** A toolkit with a listener that raises *)

(** As [accepting_toolkit], but the listener [11] raises a [RuntimeError] on
    every value. *)
Definition faulty_toolkit : Toolkit :=
  {| St := Value;
     has_signal := λ t s,
       negb (bool_decide (t = QComboBox) && bool_decide (s = "itemChanged"));
     call_getter := λ _ st _, Ok st;
     call_setter := λ t _ _ v,
       Ok (v, match SUPPORT_WIDGET_TYPES t with
              | Some info => [save_signal info]
              | None => []
              end);
     slot_raised := λ _, Ok tt;
     listener_result := λ l _,
       if bool_decide (l = 11%nat) then Raise RuntimeError else Ok tt |}.

Module Faulty.

#[local] Existing Instance faulty_toolkit.

(** A progress bar showing [3], linked to ["volume"], with the listeners
    [10], [11] and [12], registered in that order. *)
Definition W3 : World :=
  mkWorld
    (<[0%nat := mkWidget QProgressBar (Some "volume") None false ["valueChanged"]
                  (VInt 3)]> ∅)
    [0%nat]
    (setup_properties [UiProperty_new "volume" (VInt 0) VNone VNone] None)
    (<["volume" := [10; 11; 12]%nat]> ∅)
    true false [].

End Faulty.

(** A panel with a line edit and a push button of its own, and a child
    whose only child holds a progress bar. *)
Module Tree.

Definition title : Obj := mkObj QLineEdit 1.
Definition close : Obj := mkObj (OtherType "QPushButton") 2.
Definition level : Obj := mkObj QProgressBar 3.

Definition gauge : QObject := mkQObject [("level", level)] [].

Definition panel : QObject :=
  mkQObject [("title", title); ("close", close)] [mkQObject [] [gauge]].

End Tree.

Module Demo2.

#[local] Existing Instance demo_toolkit.

(** A progress bar linked to ["volume"], its signals blocked. *)
Definition bar : Widget :=
  mkWidget QProgressBar (Some "volume") None true ["valueChanged"] (VInt 3).

(** A line edit linked to ["title"], its signals blocked, with an
    ["extraProperties"] that reads its text again under the key ["shown"]. *)
Definition edit : Widget :=
  mkWidget QLineEdit (Some "title") (Some [("shown", "text")]) true
           ["textChanged"] (VStr "a").

(** Both in a model with the properties ["volume"] and ["title"]. *)
Definition Wtwo : World :=
  mkWorld
    (<[0%nat := bar]> (<[1%nat := edit]> ∅))
    [0%nat; 1%nat]
    (setup_properties
       [UiProperty_new "volume" (VInt 5) (VInt 1) VNone;
        UiProperty_new "title" (VStr "t") VNone VNone] None)
    ∅ true false [].

End Demo2.

(** ** The property registry: [setup_properties] *)

Section Registry.

Lemma setup_fold_lookup (ps : list UiProperty) (m : gmap string UiProperty) (k : string) :
  foldl setup_step m ps !! k =
    match last (named k ps) with
    | Some p => Some (fill_default p)
    | None => m !! k
    end.
Proof.
  revert m. induction ps as [|p ps IH] using rev_ind; intros m; [done|].
  rewrite foldl_app. simpl. unfold named in *. rewrite filter_app.
  unfold setup_step at 1.
  destruct (decide (name p = k)) as [Heq|Hne].
  - rewrite filter_cons_True by done. rewrite filter_nil, last_snoc.
    subst k. by rewrite lookup_insert_eq.
  - rewrite filter_cons_False by done. rewrite filter_nil, app_nil_r.
    rewrite lookup_insert_ne by done. apply IH.
Qed.

End Registry.

(** C5.  For a list of records passed to [setup_properties], whatever
    [initialize_properties] would return: the mapping sends a name to nothing
    when no record of the list has it, and otherwise to the last record of
    the list with that name (the last write wins), with the value, the type
    and the other attributes it came with, and with a default that is the
    value it came with when its default was [None], and the default it was
    given otherwise.  With no list, or with the empty list, the mapping is
    the one of the list that [initialize_properties] returns. *)
Theorem setup_properties_default_and_last_wins
    (hook : list UiProperty) (ui_property : UiProperty) (properties : list UiProperty)
    (k : string) :
  setup_properties hook (Some (ui_property :: properties)) !! k
    = match last (named k (ui_property :: properties)) with
      | Some p =>
          Some (mkUiProperty k (value p)
                  (match default p with VNone => value p | d => d end)
                  (type_ p) (dyn p))
      | None => None
      end
  ∧ setup_properties hook None = setup_properties hook (Some hook)
  ∧ setup_properties hook (Some []) = setup_properties hook (Some hook).
Proof.
  split; [|by destruct hook].
  unfold setup_properties, properties_or. rewrite setup_fold_lookup.
  destruct (last _) as [p|] eqn:Hp; [|apply lookup_empty].
  apply last_Some_elem_of, list_elem_of_filter in Hp as [Hk _].
  unfold fill_default, set_default. rewrite <- Hk.
  by destruct p as [n v [] t d].
Qed.

(** C5 on the example of the specification, with an [initialize_properties]
    that returns a record of its own: [{name: "volume", value: 0, default:
    None}] is registered with default [0] and the record of
    [initialize_properties] is not; of two records called ["volume"] the
    second is the one kept, and its explicit default is kept too. *)
Lemma setup_properties_default_and_last_wins_witness :
  setup_properties [UiProperty_new "gain" (VInt 1) VNone VNone]
    (Some [Demo.volume]) !! "volume"
    = Some (UiProperty_new "volume" (VInt 0) (VInt 0) VNone)
  ∧ setup_properties [UiProperty_new "gain" (VInt 1) VNone VNone]
      (Some [Demo.volume]) !! "gain" = None
  ∧ setup_properties [UiProperty_new "gain" (VInt 1) VNone VNone]
      (Some [Demo.volume; UiProperty_new "volume" (VInt 3) (VInt 9) VNone]) !! "volume"
    = Some (UiProperty_new "volume" (VInt 3) (VInt 9) VNone)
  ∧ setup_properties [UiProperty_new "gain" (VInt 1) VNone VNone] None !! "gain"
    = Some (UiProperty_new "gain" (VInt 1) (VInt 1) VNone).
Proof.
  split; [exact (proj1 (setup_properties_default_and_last_wins _ Demo.volume [] "volume"))|].
  split; [exact (proj1 (setup_properties_default_and_last_wins _ Demo.volume [] "gain"))|].
  split;
    [exact (proj1 (setup_properties_default_and_last_wins _ Demo.volume
                     [UiProperty_new "volume" (VInt 3) (VInt 9) VNone] "volume"))|].
  rewrite (proj1 (proj2 (setup_properties_default_and_last_wins
                           [UiProperty_new "gain" (VInt 1) VNone VNone]
                           Demo.volume [] "volume"))).
  exact (proj1 (setup_properties_default_and_last_wins _
                  (UiProperty_new "gain" (VInt 1) VNone VNone) [] "gain")).
Defined.

(** The example of the specification: [{name: "volume", value: 0, default:
    None}] is registered with default [0]; of two records called ["volume"]
    the second is the one kept, and its explicit default is kept too. *)
Example setup_properties_volume :
  setup_properties [] (Some [UiProperty_new "volume" (VInt 0) VNone VNone]) !! "volume"
    = Some (UiProperty_new "volume" (VInt 0) (VInt 0) VNone)
  ∧ setup_properties []
      (Some [UiProperty_new "volume" (VInt 0) VNone VNone;
             UiProperty_new "volume" (VInt 3) (VInt 9) VNone]) !! "volume"
    = Some (UiProperty_new "volume" (VInt 3) (VInt 9) VNone).
Proof. split; vm_compute; reflexivity. Qed.

(** ** The monad and the frame of a call *)

Section ModelFacts.
Context `{TK : Toolkit}.
Implicit Types (W : World) (evs : list Event).

Notation "'let*' x ':=' c 'in' k" := (bind c (λ x, k))
  (at level 10, x name, c at level 100, k at level 200).
Notation "c ;; k" := (bind c (λ _, k))
  (at level 100, k at level 200, right associativity).

Lemma bind_inv {A B} (m : M A) (k : A → M B) W (r : Res B) W' :
  bind m k W = (r, W') →
  (∃ a W1, m W = (Ok a, W1) ∧ k a W1 = (r, W')) ∨
  (∃ e, m W = (Raise e, W') ∧ r = Raise e).
Proof.
  unfold bind. destruct (m W) as [[a|e] W1]; intros H.
  - left. eauto.
  - right. inversion H; subst. eauto.
Qed.

Lemma steady_refl W : steady W W [].
Proof. split; try done. by rewrite app_nil_r. Qed.

Lemma steady_trans W W1 W2 evs1 evs2 :
  steady W W1 evs1 → steady W1 W2 evs2 → steady W W2 (evs1 ++ evs2).
Proof.
  intros [? ? ? ? ? Hh1 Ht1] [? ? ? ? ? Hh2 Ht2].
  split; [congruence..|intros i; by rewrite Hh2, Hh1|by rewrite Ht2, Ht1, app_assoc].
Qed.

Lemma steady_add_event W e : steady W (add_event e W) [e].
Proof. by split. Qed.

Lemma steady_put W i w w' :
  heap W !! i = Some w → static w' = static w →
  steady W (set_heap (<[i := w']> (heap W)) W) [].
Proof.
  intros Hi Hs. split; try done; simpl.
  - intros j. destruct (decide (i = j)) as [->|Hne].
    + by rewrite lookup_insert_eq, Hi; simpl; rewrite Hs.
    + by rewrite lookup_insert_ne.
  - by rewrite app_nil_r.
Qed.

Lemma steady_live W W' evs i :
  steady W W' evs → is_Some (heap W' !! i) ↔ is_Some (heap W !! i).
Proof.
  intros H. pose proof (steady_heap _ _ _ H i) as Hi.
  destruct (heap W' !! i), (heap W !! i); simpl in Hi; try done.
Qed.

Lemma steady_property_widgets W W' evs :
  steady W W' evs → property_widgets W' = property_widgets W.
Proof.
  intros H. unfold property_widgets. rewrite (steady_widgets _ _ _ H).
  apply list_filter_iff. intros i. by apply steady_live with evs.
Qed.

Lemma steady_tagged W W' evs n i :
  steady W W' evs → tagged_with n W' i = tagged_with n W i.
Proof.
  intros H. pose proof (steady_heap _ _ _ H i) as Hi. unfold tagged_with.
  destruct (heap W' !! i) as [w'|], (heap W !! i) as [w|]; simpl in Hi; try done.
  unfold static in Hi. inversion Hi as [[Ht Hp He Hc]]. by rewrite Hp.
Qed.

(** *** Loops *)

Lemma for_each_steady {A} (l : list A) (body : A → M unit) (I : World → Prop) :
  (∀ x W r W', I W → body x W = (r, W') →
     ∃ evs, steady W W' evs ∧ no_listener_called evs ∧ I W') →
  ∀ W r W', I W → for_each l body W = (r, W') →
     ∃ evs, steady W W' evs ∧ no_listener_called evs ∧ I W'.
Proof.
  intros Hbody. induction l as [|x l IH]; intros W r W' HI H; simpl in H.
  - inversion H; subst. exists []. split; [apply steady_refl|]. split; [constructor|done].
  - apply bind_inv in H as [(a & W1 & Hx & Hl)|(e & Hx & ->)].
    + destruct (Hbody _ _ _ _ HI Hx) as (e1 & S1 & N1 & I1).
      destruct (IH _ _ _ I1 Hl) as (e2 & S2 & N2 & I2).
      exists (e1 ++ e2). split; [by eapply steady_trans|].
      split; [by apply Forall_app|done].
    + destruct (Hbody _ _ _ _ HI Hx) as (e1 & S1 & N1 & I1). eauto.
Qed.

Lemma for_fold_steady {A B} (l : list A) (body : B → A → M B) (I : World → Prop) :
  (∀ b x W r W', I W → body b x W = (r, W') →
     ∃ evs, steady W W' evs ∧ no_listener_called evs ∧ I W') →
  ∀ b W r W', I W → for_fold l b body W = (r, W') →
     ∃ evs, steady W W' evs ∧ no_listener_called evs ∧ I W'.
Proof.
  intros Hbody. induction l as [|x l IH]; intros b W r W' HI H; simpl in H.
  - inversion H; subst. exists []. split; [apply steady_refl|]. split; [constructor|done].
  - apply bind_inv in H as [(a & W1 & Hx & Hl)|(e & Hx & ->)].
    + destruct (Hbody _ _ _ _ _ HI Hx) as (e1 & S1 & N1 & I1).
      destruct (IH _ _ _ _ I1 Hl) as (e2 & S2 & N2 & I2).
      exists (e1 ++ e2). split; [by eapply steady_trans|].
      split; [by apply Forall_app|done].
    + destruct (Hbody _ _ _ _ _ HI Hx) as (e1 & S1 & N1 & I1). eauto.
Qed.

(** *** Reading the state *)

Lemma get_widget_inv i W (r : Res Widget) W' :
  get_widget i W = (r, W') →
  W' = W ∧ ((∃ w, heap W !! i = Some w ∧ r = Ok w) ∨
            (heap W !! i = None ∧ r = Raise RuntimeError)).
Proof.
  unfold get_widget. destruct (heap W !! i) as [w|]; intros H; inversion H; subst.
  - split; [done|]. left. eauto.
  - split; [done|]. by right.
Qed.

Lemma properties_getitem_inv k W (r : Res UiProperty) W' :
  properties_getitem k W = (r, W') →
  W' = W ∧ ((∃ n p, k = Some n ∧ _properties W !! n = Some p ∧ r = Ok p) ∨
            r = Raise KeyError).
Proof.
  unfold properties_getitem. destruct k as [n|].
  - destruct (_properties W !! n) as [p|] eqn:Hp; intros H; inversion H; subst.
    + split; [done|]. left. eauto.
    + split; [done|]. by right.
  - intros H; inversion H; subst. split; [done|]. by right.
Qed.

(** *** Under the guard *)

Lemma save_properties_blocked W :
  _block_save W = true → save_properties W = (Ok tt, W).
Proof. intros H. unfold save_properties. by rewrite H. Qed.

Lemma run_slot_save_blocked W :
  _block_save W = true → run_slot save_properties W = (Ok tt, W).
Proof. intros H. unfold run_slot. by rewrite save_properties_blocked. Qed.

Lemma slots_blocked (cs : list string) (s : string) W :
  _block_save W = true →
  for_each cs (λ c, if decide (c = s) then run_slot save_properties else ret tt) W
  = (Ok tt, W).
Proof.
  intros H. induction cs as [|c cs IHc]; [done|]. simpl. unfold bind.
  destruct (decide (c = s)).
  - rewrite run_slot_save_blocked by done. apply IHc.
  - unfold ret at 1. apply IHc.
Qed.

Lemma deliver_blocked w emitted W :
  _block_save W = true → deliver w emitted W = (Ok tt, W).
Proof.
  intros H. unfold deliver. destruct (signalsBlocked w); [done|].
  induction emitted as [|s em IH]; [done|]. simpl. unfold bind at 1.
  rewrite slots_blocked by done. apply IH.
Qed.

Lemma call_widget_setter_blocked W i w s v (r : Res unit) W' :
  _block_save W = true → heap W !! i = Some w →
  call_widget_setter i w s v W = (r, W') →
  steady W W' [SetterCall i s v].
Proof.
  intros Hb Hi H. unfold call_widget_setter, log_event, modify in H.
  unfold bind at 1 in H.
  destruct (call_setter (wtype w) (wstate w) s v) as [[st em]|e].
  - unfold put_widget, modify in H. unfold bind at 1 in H.
    rewrite deliver_blocked in H by done. inversion H; subst.
    change [SetterCall i s v] with ([SetterCall i s v] ++ []).
    eapply steady_trans; [apply steady_add_event|].
    by apply (steady_put (add_event (SetterCall i s v) W) i w).
  - assert (W' = add_event (SetterCall i s v) W) as ->
      by (destruct e; unfold raise in H; by inversion H).
    apply steady_add_event.
Qed.

Lemma no_listener_called_setter i s v : no_listener_called [SetterCall i s v].
Proof. by repeat constructor. Qed.

Lemma no_listener_called_warned i n : no_listener_called [Warned i n].
Proof. by repeat constructor. Qed.

(** One turn of the loop of [update_widget], under the guard. *)
Lemma update_step_blocked widget (k : option string) (ig : nat * UiPropertyGetSet)
    W (r : Res bool) W' :
  _block_save W = true →
  (let* p := properties_getitem k in
   let* v := match getattr p (facet_of ig.1 ig.2) with
             | Some v => ret v
             | None => raise AttributeError
             end in
   let* w' := get_widget widget in
   call_widget_setter widget w' (setter ig.2) v ;;
   ret true) W = (r, W') →
  ∃ evs, steady W W' evs ∧ no_listener_called evs ∧ _block_save W' = true.
Proof.
  intros Hb H.
  apply bind_inv in H as [(p & W1 & Hp & H)|(e & Hp & ->)];
    apply properties_getitem_inv in Hp as [-> _];
    [|exists []; split; [apply steady_refl|split; [constructor|done]]].
  apply bind_inv in H as [(v & W1 & Hv & H)|(e & Hv & ->)].
  2:{ destruct (getattr p _); unfold ret, raise in Hv; inversion Hv; subst.
      exists []. split; [apply steady_refl|split; [constructor|done]]. }
  assert (W1 = W) as -> by (destruct (getattr p _); unfold ret, raise in Hv; by inversion Hv).
  apply bind_inv in H as [(w' & W1 & Hw & H)|(e & Hw & ->)];
    apply get_widget_inv in Hw as [-> Hw];
    [|exists []; split; [apply steady_refl|split; [constructor|done]]].
  destruct Hw as [(w0 & Hw0 & [= <-])|[_ ?]]; [|done].
  apply bind_inv in H as [([] & W1 & Hs & H)|(e & Hs & ->)].
  - unfold ret in H. inversion H; subst.
    pose proof (call_widget_setter_blocked _ _ _ _ _ _ _ Hb Hw0 Hs) as S.
    eexists. split; [exact S|]. split; [apply no_listener_called_setter|].
    by rewrite (steady_block _ _ _ S).
  - pose proof (call_widget_setter_blocked _ _ _ _ _ _ _ Hb Hw0 Hs) as S.
    eexists. split; [exact S|]. split; [apply no_listener_called_setter|].
    by rewrite (steady_block _ _ _ S).
Qed.

Lemma update_widget_blocked widget W (r : Res unit) W' :
  _block_save W = true → update_widget widget W = (r, W') →
  ∃ evs, steady W W' evs ∧ no_listener_called evs ∧ _block_save W' = true.
Proof.
  intros Hb H. unfold update_widget in H.
  apply bind_inv in H as [(w & W1 & Hw & H)|(e & Hw & ->)];
    apply get_widget_inv in Hw as [-> Hw];
    [|exists []; split; [apply steady_refl|split; [constructor|done]]].
  apply bind_inv in H as [(modified & W1 & Hm & H)|(e & Hm & ->)].
  - assert (∃ evs, steady W W1 evs ∧ no_listener_called evs ∧ _block_save W1 = true)
      as (e1 & S1 & N1 & B1).
    { destruct (SUPPORT_WIDGET_TYPES (wtype w)) as [info|].
      - eapply (for_fold_steady _ _ (λ W, _block_save W = true)); [|exact Hb|exact Hm].
        intros b [i g] W2 r2 W2' Hb2 H2.
        by apply (update_step_blocked widget (widget_property_name w) (i, g)) in H2.
      - unfold ret in Hm. inversion Hm; subst.
        exists []. split; [apply steady_refl|split; [constructor|done]]. }
    destruct (negb modified && _show_warnings W1).
    + unfold log_event, modify in H. inversion H; subst.
      exists (e1 ++ [Warned widget (widget_property_name w)]).
      split; [eapply steady_trans; [exact S1|apply steady_add_event]|].
      split; [apply Forall_app; split; [done|apply no_listener_called_warned]|done].
    + inversion H; subst. eauto.
  - destruct (SUPPORT_WIDGET_TYPES (wtype w)) as [info|].
    + eapply (for_fold_steady _ _ (λ W, _block_save W = true)); [|exact Hb|exact Hm].
      intros b [i g] W2 r2 W2' Hb2 H2.
      by apply (update_step_blocked widget (widget_property_name w) (i, g)) in H2.
    + unfold ret in Hm. inversion Hm.
Qed.

Lemma blockSignals_steady widget b W (r : Res unit) W' :
  blockSignals widget b W = (r, W') → steady W W' [].
Proof.
  intros H. unfold blockSignals in H.
  apply bind_inv in H as [(w & W1 & Hw & H)|(e & Hw & ->)];
    apply get_widget_inv in Hw as [-> Hw]; [|apply steady_refl].
  destruct Hw as [(w0 & Hw0 & [= <-])|[_ ?]]; [|done].
  unfold put_widget, modify in H. inversion H; subst.
  by eapply steady_put.
Qed.

(** The two loops of the refresh, under the guard. *)
Lemma refresh_loops_blocked (l : list nat) W (r : Res unit) W' :
  _block_save W = true →
  (for_each l update_widget ;;
   for_each l (λ widget, blockSignals widget false)) W = (r, W') →
  ∃ evs, steady W W' evs ∧ no_listener_called evs.
Proof.
  intros Hb H.
  apply bind_inv in H as [([] & W1 & H1 & H2)|(e & H1 & ->)].
  - eapply (for_each_steady _ _ (λ W, _block_save W = true)) in H1
      as (e1 & S1 & N1 & B1); [| |exact Hb].
    2:{ intros x W2 r2 W2' Hb2 Hx. by eapply update_widget_blocked. }
    eapply (for_each_steady _ _ (λ W, True)) in H2 as (e2 & S2 & N2 & _); [| |done].
    2:{ intros x W2 r2 W2' _ Hx. exists []. split; [by eapply blockSignals_steady|].
        split; [constructor|done]. }
    exists (e1 ++ e2). split; [by eapply steady_trans|by apply Forall_app].
  - eapply (for_each_steady _ _ (λ W, _block_save W = true)) in H1
      as (e1 & S1 & N1 & B1); [| |exact Hb].
    2:{ intros x W2 r2 W2' Hb2 Hx. by eapply update_widget_blocked. }
    eauto.
Qed.

(** *** The refresh of the widgets *)

Lemma update_widgets_from_properties_inv W (r : Res unit) W' :
  update_widgets_from_properties W = (r, W') →
  ∃ W1 evs, steady (set_block_save true W) W1 evs ∧ no_listener_called evs ∧
            W' = set_block_save false W1.
Proof.
  unfold update_widgets_from_properties, modify. unfold bind at 1.
  unfold try_finally. intros H.
  destruct ((for_each (property_widgets (set_block_save true W)) update_widget ;;
             for_each (property_widgets (set_block_save true W))
               (λ widget, blockSignals widget false)) (set_block_save true W))
    as [r1 W1] eqn:Hbody.
  simpl in H. inversion H; subst.
  apply refresh_loops_blocked in Hbody as (evs & S & N); [|done].
  eauto.
Qed.

Lemma update_widget_from_property_inv n W (r : Res unit) W' :
  update_widget_from_property n W = (r, W') →
  ∃ W1 evs, steady (set_block_save true W) W1 evs ∧ no_listener_called evs ∧
            ((r = Ok tt ∧ W' = set_block_save false W1) ∨
             (∃ e, r = Raise e ∧ W' = W1)).
Proof.
  unfold update_widget_from_property, modify. unfold bind at 1. intros H.
  set (l := widgets_linked_to_property n (set_block_save true W)) in H.
  apply bind_inv in H as [([] & W1 & H1 & H2)|(e & H1 & ->)].
  - apply bind_inv in H2 as [([] & W2 & H2 & H3)|(e & H2 & ->)].
    + inversion H3; subst.
      assert ((for_each l update_widget ;;
               for_each l (λ widget, blockSignals widget false))
                (set_block_save true W) = (Ok tt, W2)) as Hb
        by (unfold bind; by rewrite H1).
      apply refresh_loops_blocked in Hb as (evs & S & N); [|done].
      exists W2, evs. eauto.
    + assert ((for_each l update_widget ;;
               for_each l (λ widget, blockSignals widget false))
                (set_block_save true W) = (Raise e, W')) as Hb
        by (unfold bind; by rewrite H1).
      apply refresh_loops_blocked in Hb as (evs & S & N); [|done].
      exists W', evs. eauto 10.
  - assert ((for_each l update_widget ;;
             for_each l (λ widget, blockSignals widget false))
              (set_block_save true W) = (Raise e, W')) as Hb
      by (unfold bind; by rewrite H1).
    apply refresh_loops_blocked in Hb as (evs & S & N); [|done].
    exists W', evs. eauto 10.
Qed.

(** [update_widgets_from_properties] lowers the guard on every way out. *)
Lemma update_widgets_from_properties_resets W (r : Res unit) W' :
  update_widgets_from_properties W = (r, W') → _block_save W' = false.
Proof.
  intros H. apply update_widgets_from_properties_inv in H as (W1 & evs & _ & _ & ->).
  done.
Qed.

(** [update_widget_from_property] lowers it when it returns. *)
Lemma update_widget_from_property_resets_on_return n W W' :
  update_widget_from_property n W = (Ok tt, W') → _block_save W' = false.
Proof.
  intros H. apply update_widget_from_property_inv in H
    as (W1 & evs & _ & _ & [[_ ->]|(e & ? & _)]); done.
Qed.

(** *** Listeners *)

Lemma call_listener_run (l : Listener) (v : Value) W :
  call_listener l v W = (listener_result l v, add_event (Called l v) W).
Proof. reflexivity. Qed.

(** The loop over the listeners stops at the first that raises. *)
Lemma call_listeners_run (ls : list Listener) (v : Value) W :
  for_each ls (λ listener, call_listener listener v) W
  = (listeners_outcome ls v,
     foldl (λ W l, add_event (Called l v) W) W (called_listeners ls v)).
Proof.
  revert W. induction ls as [|l ls IH]; intros W; [done|].
  simpl. unfold bind at 1. rewrite call_listener_run.
  destruct (listener_result l v) as [[]|e]; [|done]. apply IH.
Qed.

Lemma listeners_outcome_ok (ls : list Listener) (v : Value) :
  listeners_outcome ls v = Ok tt ↔ Forall (λ l, listener_result l v = Ok tt) ls.
Proof.
  induction ls as [|l ls IH]; simpl.
  - split; [constructor|done].
  - destruct (listener_result l v) as [[]|e] eqn:Hl.
    + rewrite IH. split; [by constructor|]. intros H. by inversion H.
    + split; [done|]. intros H. inversion H; congruence.
Qed.

Lemma called_listeners_all (ls : list Listener) (v : Value) :
  listeners_outcome ls v = Ok tt → called_listeners ls v = ls.
Proof.
  induction ls as [|l ls IH]; simpl; [done|].
  destruct (listener_result l v) as [[]|e]; [|done]. intros H. by rewrite IH.
Qed.

(** When a listener raises, it is the first of the list to do so, it is the
    last one called, and its exception is what the loop raises. *)
Lemma called_listeners_raise (pre post : list Listener) (l : Listener) (v : Value) e :
  Forall (λ l, listener_result l v = Ok tt) pre →
  listener_result l v = Raise e →
  listeners_outcome (pre ++ l :: post) v = Raise e ∧
  called_listeners (pre ++ l :: post) v = pre ++ [l].
Proof.
  intros Hpre Hl. induction Hpre as [|x pre Hx _ IH]; simpl.
  - by rewrite Hl.
  - rewrite Hx. destruct IH as [-> ->]. done.
Qed.

Lemma add_events_fields (ls : list Listener) (v : Value) W :
  let W' := foldl (λ W l, add_event (Called l v) W) W ls in
  heap W' = heap W ∧ _widgets W' = _widgets W ∧ _properties W' = _properties W ∧
  _listeners W' = _listeners W ∧ _show_warnings W' = _show_warnings W ∧
  _block_save W' = _block_save W ∧
  trace W' = trace W ++ map (λ l, Called l v) ls.
Proof.
  revert W. induction ls as [|l ls IH]; intros W; simpl.
  - by rewrite app_nil_r.
  - destruct (IH (add_event (Called l v) W)) as (? & ? & ? & ? & ? & ? & Ht).
    repeat split; try done. rewrite Ht. simpl. by rewrite <- app_assoc.
Qed.

(** What [update_property] does for a registered name. *)
Lemma update_property_registered_inv p v q W (r : Res unit) W' :
  _properties W !! p = Some q →
  update_property p v W = (r, W') →
  ∃ W1 evs,
    steady (set_block_save true
              (set_properties (<[p := set_value v q]> (_properties W)) W)) W1 evs ∧
    no_listener_called evs ∧
    ((∃ e, r = Raise e ∧ W' = W1) ∨
     (r = listeners_outcome (listeners_get (Some p) W) v ∧
      W' = foldl (λ W l, add_event (Called l v) W) (set_block_save false W1)
             (called_listeners (listeners_get (Some p) W) v))).
Proof.
  intros Hq H. unfold update_property in H. rewrite Hq in H.
  unfold modify in H. unfold bind at 1 in H.
  apply bind_inv in H as [([] & W2 & H1 & H2)|(e & H1 & ->)].
  - apply update_widget_from_property_inv in H1
      as (W1 & evs & S & N & [[_ ->]|(e & ? & _)]); [|done].
    rewrite call_listeners_run in H2.
    assert (listeners_get (Some p) (set_block_save false W1) = listeners_get (Some p) W)
      as Hl by (unfold listeners_get; simpl; by rewrite (steady_listeners _ _ _ S)).
    rewrite Hl in H2.
    exists W1, evs. split; [done|]. split; [done|]. right. by inversion H2.
  - apply update_widget_from_property_inv in H1
      as (W1 & evs & S & N & [[? _]|(e' & _ & ->)]); [done|].
    exists W1, evs. eauto 10.
Qed.

(** A widget of a supported class with a registered tag receives, under the
    guard, the value of its property through the first setter of its class. *)
Lemma update_widget_blocked_refreshes widget W W' t n ex cs info g gs q :
  _block_save W = true →
  update_widget widget W = (Ok tt, W') →
  static <$> (heap W !! widget) = Some (t, Some n, ex, cs) →
  SUPPORT_WIDGET_TYPES t = Some info → getsets info = g :: gs →
  _properties W !! n = Some q →
  ∃ evs, steady W W' evs ∧ no_listener_called evs ∧
         SetterCall widget (setter g) (value q) ∈ evs.
Proof.
  intros Hb H Hst Hinfo Hgs Hq.
  destruct (heap W !! widget) as [w|] eqn:Hw; [|done].
  simpl in Hst. unfold static in Hst. inversion Hst as [[Ht Hn He Hc]]. clear Hst.
  unfold update_widget in H.
  apply bind_inv in H as [(w0 & W1 & Hw0 & H)|(e & _ & ?)]; [|done].
  apply get_widget_inv in Hw0 as [-> [(w1 & Hw1 & [= <-])|[? _]]]; [|congruence].
  assert (w0 = w) as -> by congruence.
  apply bind_inv in H as [(modified & W1 & Hm & H)|(e & _ & ?)]; [|done].
  rewrite Ht, Hinfo, Hgs in Hm. unfold widget_property_name in Hm. rewrite Hn in Hm.
  unfold enumerate in Hm. simpl in Hm.
  apply bind_inv in Hm as [(b1 & W2 & Hstep & Hrest)|(e & _ & ?)]; [|done].
  (* the first turn *)
  apply bind_inv in Hstep as [(p & W3 & Hp & Hstep)|(e & _ & ?)]; [|done].
  apply properties_getitem_inv in Hp as [-> [(n' & p' & [= <-] & Hp' & [= <-])|?]]; [|done].
  assert (p = q) as -> by congruence.
  unfold getattr in Hstep. simpl in Hstep. unfold ret at 1 in Hstep.
  unfold bind at 1 in Hstep.
  apply bind_inv in Hstep as [(w' & W3 & Hw' & Hstep)|(e & _ & ?)]; [|done].
  apply get_widget_inv in Hw' as [-> [(w2 & Hw2 & [= <-])|[? _]]]; [|congruence].
  assert (w' = w) as -> by congruence.
  apply bind_inv in Hstep as [([] & W3 & Hset & Hstep)|(e & _ & ?)]; [|done].
  unfold ret in Hstep. inversion Hstep; subst b1 W3. clear Hstep.
  pose proof (call_widget_setter_blocked _ _ _ _ _ _ _ Hb Hw Hset) as S1.
  (* the other turns *)
  assert (_block_save W2 = true) as Hb2 by by rewrite (steady_block _ _ _ S1).
  eapply (for_fold_steady _ _ (λ W, _block_save W = true)) in Hrest
    as (e2 & S2 & N2 & B2); [| |exact Hb2].
  2:{ intros b [i g'] W4 r4 W4' Hb4 H4.
      by apply (update_step_blocked widget (Some n) (i, g')) in H4. }
  (* the warning that does not come *)
  assert (∃ e3, steady W1 W' e3 ∧ no_listener_called e3) as (e3 & S3 & N3).
  { destruct (negb modified && _show_warnings W1).
    - unfold log_event, modify in H. inversion H; subst.
      eexists. split; [apply steady_add_event|apply no_listener_called_warned].
    - inversion H; subst. exists []. split; [apply steady_refl|constructor]. }
  exists (([SetterCall widget (setter g) (value q)] ++ e2) ++ e3).
  split; [eapply steady_trans; [eapply steady_trans|]; eassumption|].
  split.
  - apply Forall_app. split; [|done]. apply Forall_app. split; [|done].
    apply no_listener_called_setter.
  - apply elem_of_app. left. apply elem_of_app. left. by apply list_elem_of_singleton.
Qed.

Lemma steady_static_lookup W W' evs i x :
  steady W W' evs → static <$> (heap W !! i) = Some x →
  static <$> (heap W' !! i) = Some x.
Proof. intros S H. by rewrite (steady_heap _ _ _ S). Qed.

(** The first loop of the refresh reaches every widget of its list. *)
Lemma refresh_loop_reaches (l : list nat) W W' :
  _block_save W = true →
  for_each l update_widget W = (Ok tt, W') →
  ∃ evs, steady W W' evs ∧ no_listener_called evs ∧
    ∀ widget t n ex cs info g gs q,
      widget ∈ l →
      static <$> (heap W !! widget) = Some (t, Some n, ex, cs) →
      SUPPORT_WIDGET_TYPES t = Some info → getsets info = g :: gs →
      _properties W !! n = Some q →
      SetterCall widget (setter g) (value q) ∈ evs.
Proof.
  revert W. induction l as [|x l IH]; intros W Hb H; simpl in H.
  - inversion H; subst. exists []. split; [apply steady_refl|].
    split; [constructor|]. intros * Hin. by apply elem_of_nil in Hin.
  - apply bind_inv in H as [([] & W1 & Hx & Hl)|(e & _ & ?)]; [|done].
    destruct (update_widget_blocked _ _ _ _ Hb Hx) as (e1 & S1 & N1 & B1).
    destruct (IH _ B1 Hl) as (e2 & S2 & N2 & Hall).
    assert (trace W1 = trace W ++ e1) as Ht1 by apply S1.
    exists (e1 ++ e2). split; [by eapply steady_trans|].
    split; [by apply Forall_app|].
    intros widget t n ex cs info g gs q Hin Hst Hinfo Hgs Hq.
    apply elem_of_app.
    apply elem_of_cons in Hin as [->|Hin].
    + left.
      destruct (update_widget_blocked_refreshes _ _ _ _ _ _ _ _ _ _ _
                  Hb Hx Hst Hinfo Hgs Hq) as (e1' & S1' & _ & Hin').
      assert (e1' = e1) as <-; [|done].
      pose proof (steady_trace _ _ _ S1') as Ht1'. rewrite Ht1 in Ht1'.
      by apply app_inv_head in Ht1'.
    + right. eapply Hall; try eassumption.
      * by eapply steady_static_lookup.
      * by rewrite (steady_properties _ _ _ S1).
Qed.

(** ** The guard against the feedback loop *)

(** C4.  While the guard is up [save_properties] returns at once and leaves
    the whole state as it found it, and so does the delivery of the signals
    that a setter emits; hence a call of [update_widgets_from_properties],
    whatever the setters emit and however it ends, leaves the property
    registry as it was and calls no listener. *)
Theorem save_properties_noop_while_blocked W (r : Res unit) W' :
  update_widgets_from_properties W = (r, W') →
  (∀ W1, _block_save W1 = true → save_properties W1 = (Ok tt, W1)) ∧
  (∀ W1 w emitted, _block_save W1 = true → deliver w emitted W1 = (Ok tt, W1)) ∧
  _properties W' = _properties W ∧
  ∃ evs, trace W' = trace W ++ evs ∧ no_listener_called evs.
Proof.
  intros H. split; [apply save_properties_blocked|].
  split; [intros; by apply deliver_blocked|].
  apply update_widgets_from_properties_inv in H as (W1 & evs & S & N & ->).
  split; [apply (steady_properties _ _ _ S)|].
  exists evs. split; [apply (steady_trace _ _ _ S)|done].
Qed.

(** ** [update_property] and [listen] *)

(** C6.  After [update_property(p, v)] on a registered name the record of [p]
    has the value [v], whether the call returned or a setter or a listener
    raised; on a name that is not registered the call returns and nothing has changed:
    not the state, and not the events, so no listener was called. *)
Theorem update_property_round_trip p v W (r : Res unit) W' :
  update_property p v W = (r, W') →
  match _properties W !! p with
  | Some _ => value <$> (_properties W' !! p) = Some v
  | None => r = Ok tt ∧ W' = W
  end.
Proof.
  intros H. destruct (_properties W !! p) as [q|] eqn:Hq.
  - destruct (update_property_registered_inv _ _ _ _ _ _ Hq H)
      as (W1 & evs & S & N & [(e & _ & ->)|[_ ->]]).
    + rewrite (steady_properties _ _ _ S). simpl. by rewrite lookup_insert_eq.
    + destruct (add_events_fields (called_listeners (listeners_get (Some p) W) v) v
                  (set_block_save false W1)) as (_ & _ & -> & _).
      simpl. rewrite (steady_properties _ _ _ S). simpl. by rewrite lookup_insert_eq.
  - unfold update_property in H. rewrite Hq in H. by inversion H.
Qed.

(** C7.  On every name, a property or not, and in every state, [listen]
    returns, puts the callback at the end of the list of that name, whether
    the callback is in that list already or not, touches the list of no
    other name, and changes nothing else in the model; and a call of
    [update_property(p, v)] on a registered name that returns has added to
    the events, after those of the refresh, among which no listener is
    called, exactly one call of each entry of the list of [p], in the order
    of registration, with [v]. *)
Theorem listeners_called_in_registration_order p l v W :
  (∃ W1, listen p l W = (Ok tt, W1) ∧
         listeners_get (Some p) W1 = listeners_get (Some p) W ++ [l] ∧
         (∀ q, q ≠ p → listeners_get (Some q) W1 = listeners_get (Some q) W) ∧
         W1 = set_listeners (_listeners W1) W) ∧
  (∀ W', is_Some (_properties W !! p) →
         update_property p v W = (Ok tt, W') →
         ∃ evs, no_listener_called evs ∧
                trace W' = trace W ++ evs ++
                           map (λ l, Called l v) (listeners_get (Some p) W)).
Proof.
  split.
  - eexists. split; [reflexivity|]. unfold listeners_get at 1 3. simpl. split.
    + by rewrite lookup_insert_eq.
    + split; [|done]. intros q' Hne. by rewrite lookup_insert_ne.
  - intros W' [q Hq] H.
    destruct (update_property_registered_inv _ _ _ _ _ _ Hq H)
      as (W1 & evs & S & N & [(e & ? & _)|[Hok ->]]); [done|].
    symmetry in Hok. rewrite (called_listeners_all _ _ Hok).
    exists evs. split; [done|].
    destruct (add_events_fields (listeners_get (Some p) W) v (set_block_save false W1))
      as (_ & _ & _ & _ & _ & _ & ->).
    simpl. rewrite (steady_trace _ _ _ S). simpl. by rewrite app_assoc.
Qed.

(** C9.  [update_property] does not compare the new value with the old one:
    whatever value the record of [p] has, and so also when it already has the
    value [v], a call that returns has called the first setter of every
    widget linked to [p] whose class is in the table with [v], and after
    that every listener of [p] with [v], in order. *)
Theorem update_property_no_change_detection p v q W W' :
  _properties W !! p = Some q →
  update_property p v W = (Ok tt, W') →
  ∃ evs,
    trace W' = trace W ++ evs ++ map (λ l, Called l v) (listeners_get (Some p) W) ∧
    no_listener_called evs ∧
    ∀ widget w info g gs,
      widget ∈ widgets_linked_to_property p W →
      heap W !! widget = Some w →
      SUPPORT_WIDGET_TYPES (wtype w) = Some info → getsets info = g :: gs →
      SetterCall widget (setter g) v ∈ evs.
Proof.
  intros Hq H. unfold update_property in H. rewrite Hq in H.
  unfold modify in H. unfold bind at 1 in H.
  set (Wp := set_properties (<[p := set_value v q]> (_properties W)) W) in H.
  apply bind_inv in H as [([] & W2 & H1 & H2)|(e & _ & ?)]; [|done].
  rewrite call_listeners_run in H2.
  assert (listeners_outcome (listeners_get (Some p) W2) v = Ok tt) as Hok by congruence.
  rewrite (called_listeners_all _ _ Hok) in H2.
  assert (W' = foldl (λ W l, add_event (Called l v) W) W2 (listeners_get (Some p) W2))
    as -> by congruence.
  clear H2 Hok.
  unfold update_widget_from_property, modify in H1. unfold bind at 1 in H1.
  set (Wb := set_block_save true Wp) in H1.
  apply bind_inv in H1 as [([] & W3 & Hup & H1)|(e & _ & ?)]; [|done].
  apply bind_inv in H1 as [([] & W4 & Hbl & H1)|(e & _ & ?)]; [|done].
  assert (W2 = set_block_save false W4) as -> by congruence. clear H1.
  apply refresh_loop_reaches in Hup as (e1 & S1 & N1 & Hall); [|done].
  eapply (for_each_steady _ _ (λ W, True)) in Hbl as (e2 & S2 & N2 & _); [| |done].
  2:{ intros x Wx rx Wx' _ Hx. exists []. split; [by eapply blockSignals_steady|].
      split; [constructor|done]. }
  exists (e1 ++ e2).
  assert (listeners_get (Some p) (set_block_save false W4) = listeners_get (Some p) W)
    as ->.
  { unfold listeners_get. simpl.
    by rewrite (steady_listeners _ _ _ S2), (steady_listeners _ _ _ S1). }
  destruct (add_events_fields (listeners_get (Some p) W) v
              (set_block_save false W4)) as (_ & _ & _ & _ & _ & _ & ->).
  split; [|split; [by apply Forall_app|]].
  - simpl. rewrite (steady_trace _ _ _ S2), (steady_trace _ _ _ S1). simpl.
    by rewrite !app_assoc.
  - intros widget w info g gs Hin Hw Hinfo Hgs.
    apply elem_of_app. left.
    pose proof Hin as Hin'.
    apply list_elem_of_filter in Hin' as [Htag _].
    unfold tagged_with in Htag. rewrite Hw in Htag.
    destruct (prop w) as [n|] eqn:Hn; [|done].
    apply bool_decide_unpack in Htag. subst n.
    assert (value (set_value v q) = v) as <- by done.
    eapply (Hall widget (wtype w) p (extraProperties w) (connections w));
      [exact Hin| |eassumption|eassumption|].
    + simpl. rewrite Hw. simpl. unfold static. by rewrite Hn.
    + simpl. by rewrite lookup_insert_eq.
Qed.

(** ** [save_properties] *)

(** *** Dictionaries and attributes *)

Lemma dict_set_keys {V} (k : string) (v : V) (d : list (string * V)) (k' : string) :
  k' ∈ (dict_set k v d).*1 ↔ k' = k ∨ k' ∈ d.*1.
Proof.
  induction d as [|[k0 v0] d IH]; simpl.
  - rewrite list_elem_of_singleton. rewrite elem_of_nil. tauto.
  - destruct (decide (k0 = k)) as [->|Hne]; simpl; rewrite !elem_of_cons.
    + tauto.
    + rewrite IH. tauto.
Qed.

Lemma dict_set_NoDup {V} (k : string) (v : V) (d : list (string * V)) :
  NoDup d.*1 → NoDup (dict_set k v d).*1.
Proof.
  induction d as [|[k0 v0] d IH]; simpl; intros Hd.
  - apply NoDup_singleton.
  - inversion Hd as [|? ? Hnin Hd']; subst.
    destruct (decide (k0 = k)) as [->|Hne]; simpl.
    + by constructor.
    + constructor; [|by apply IH].
      rewrite dict_set_keys. intros [?|?]; done.
Qed.

Lemma dict_set_not_nil {V} (k : string) (v : V) (d : list (string * V)) :
  dict_set k v d ≠ [].
Proof. destruct d as [|[k0 v0] d]; simpl; [done|]. by destruct (decide (k0 = k)). Qed.

Lemma dict_get_elem_of {V} (k : string) (v : V) (d : list (string * V)) :
  dict_get k d = Some v → (k, v) ∈ d.
Proof.
  induction d as [|[k0 v0] d IH]; simpl; [done|].
  destruct (decide (k0 = k)) as [->|Hne].
  - intros [= ->]. by left.
  - intros H. right. by apply IH.
Qed.

Lemma dict_get_None {V} (k : string) (d : list (string * V)) :
  dict_get k d = None → k ∉ d.*1.
Proof.
  induction d as [|[k0 v0] d IH]; simpl; [intros _; apply not_elem_of_nil|].
  destruct (decide (k0 = k)) as [->|Hne]; [done|].
  intros H. apply not_elem_of_cons. split; [done|by apply IH].
Qed.

Lemma fold_res_inv {A B} (I : B → Prop) (l : list A) (body : B → A → Res B) :
  (∀ b x b', I b → body b x = Ok b' → I b') →
  ∀ b b', I b → fold_res l b body = Ok b' → I b'.
Proof.
  intros Hbody. induction l as [|x l IH]; intros b b' Hb H; simpl in H.
  - by inversion H; subst.
  - destruct (body b x) as [b1|e] eqn:Hx; [|done]. eapply IH; [|exact H]. eauto.
Qed.

Lemma read_into_inv w k accessor result result' :
  read_into w k accessor result = Ok result' →
  ∃ v, result' = dict_set k v result.
Proof.
  unfold read_into. destruct (call_getter _ _ _) as [v|e]; [|done].
  intros [= <-]. eauto.
Qed.

(** The facets of a widget have distinct keys, as a dictionary must. *)
Lemma read_facets_NoDup w info facets :
  read_facets w info = Ok facets → NoDup facets.*1.
Proof.
  unfold read_facets. intros H.
  destruct (fold_res (enumerate (getsets info)) [] _) as [r1|e] eqn:H1; [|done].
  eapply (fold_res_inv (λ d, NoDup d.*1)) in H1; [| |constructor].
  2:{ intros b [i g] b' Hb Hx. apply read_into_inv in Hx as [v ->].
      by apply dict_set_NoDup. }
  eapply (fold_res_inv (λ d, NoDup d.*1)); [|exact H1|exact H].
  intros b [k a] b' Hb Hx. apply read_into_inv in Hx as [v ->].
  by apply dict_set_NoDup.
Qed.

(** A class with an accessor pair has a facet. *)
Lemma read_facets_not_nil w info facets :
  getsets info ≠ [] → read_facets w info = Ok facets → facets ≠ [].
Proof.
  unfold read_facets. intros Hgs H.
  destruct (getsets info) as [|g gs]; [done|]. unfold enumerate in H. simpl in H.
  destruct (read_into w "value" (getter g) []) as [r0|e] eqn:H0; [|done].
  apply read_into_inv in H0 as [v0 ->].
  destruct (fold_res _ _ _) as [r1|e] eqn:H1 in H; [|done].
  eapply (fold_res_inv (λ d, d ≠ [])) in H1; [| |by apply dict_set_not_nil].
  2:{ intros b [i g'] b' Hb Hx. apply read_into_inv in Hx as [v ->].
      apply dict_set_not_nil. }
  eapply (fold_res_inv (λ d, d ≠ [])); [|exact H1|exact H].
  intros b [k a] b' Hb Hx. apply read_into_inv in Hx as [v ->].
  apply dict_set_not_nil.
Qed.

Lemma getattr_setattr_eq p k v :
  getattr (setattr p k v) k = Some v.
Proof.
  unfold getattr, setattr.
  destruct (decide (k = "value")) as [->|?]; [done|].
  destruct (decide (k = "default")) as [->|?]; [done|].
  destruct (decide (k = "type")) as [->|?]; [done|].
  destruct (decide (k = "name")) as [->|?].
  - destruct v; simpl; by rewrite ?lookup_delete_eq, ?lookup_insert_eq.
  - simpl. apply lookup_insert_eq.
Qed.

Lemma getattr_setattr_ne p k v k' :
  k' ≠ k → getattr (setattr p k v) k' = getattr p k'.
Proof.
  unfold getattr, setattr. intros Hne.
  destruct (decide (k' = "value")); destruct (decide (k' = "default"));
  destruct (decide (k' = "type")); destruct (decide (k' = "name"));
  destruct (decide (k = "value")); destruct (decide (k = "default"));
  destruct (decide (k = "type")); destruct (decide (k = "name"));
  simplify_eq; try done; try (by destruct v); simpl;
    try (by rewrite lookup_insert_ne by done);
    destruct v; simpl; by rewrite ?lookup_delete_ne, ?lookup_insert_ne by done.
Qed.

Lemma setattr_all_other p facets k :
  k ∉ facets.*1 → getattr (setattr_all p facets) k = getattr p k.
Proof.
  unfold setattr_all. revert p.
  induction facets as [|[k0 v0] fs IH]; intros p Hnin; [done|].
  simpl in *. apply not_elem_of_cons in Hnin as [Hne Hnin].
  rewrite IH by done. by apply getattr_setattr_ne.
Qed.

Lemma setattr_all_get p facets k v :
  NoDup facets.*1 → (k, v) ∈ facets →
  getattr (setattr_all p facets) k = Some v.
Proof.
  revert p.
  induction facets as [|[k0 v0] fs IH]; intros p Hnd Hin; [by apply elem_of_nil in Hin|].
  simpl in Hnd. inversion Hnd as [|? ? Hnin Hnd']; subst.
  apply elem_of_cons in Hin as [[= -> ->]|Hin].
  - change (setattr_all p ((k0, v0) :: fs)) with (setattr_all (setattr p k0 v0) fs).
    rewrite setattr_all_other by done. by apply getattr_setattr_eq.
  - change (setattr_all p ((k0, v0) :: fs)) with (setattr_all (setattr p k0 v0) fs).
    by apply IH.
Qed.

(** *** The two inner loops *)

Lemma add_events_nil W : add_events [] W = W.
Proof. destruct W. unfold add_events. simpl. by rewrite app_nil_r. Qed.

Lemma add_events_app evs1 evs2 W :
  add_events evs2 (add_events evs1 W) = add_events (evs1 ++ evs2) W.
Proof. unfold add_events. simpl. by rewrite app_assoc. Qed.

Lemma set_properties_id W : set_properties (_properties W) W = W.
Proof. by destruct W. Qed.

Lemma setattr_loop_registered n p (facets : list (string * Value)) W :
  _properties W !! n = Some p →
  for_each facets (λ '(k, v), properties_setattr (Some n) k v) W
  = (Ok tt, set_properties (<[n := setattr_all p facets]> (_properties W)) W).
Proof.
  revert p W. induction facets as [|[k v] fs IH]; intros p W Hp.
  - simpl. unfold ret. f_equal. unfold setattr_all. simpl.
    rewrite insert_id by done. by rewrite set_properties_id.
  - simpl. unfold bind at 1. unfold properties_setattr at 1.
    unfold bind at 1. unfold properties_getitem. rewrite Hp. unfold modify.
    rewrite (IH (setattr p k v)) by (simpl; apply lookup_insert_eq).
    f_equal. unfold set_properties. simpl. by rewrite insert_insert_eq.
Qed.

Lemma setattr_loop_unregistered key (facets : list (string * Value)) W :
  facets ≠ [] →
  (∀ n, key = Some n → _properties W !! n = None) →
  for_each facets (λ '(k, v), properties_setattr key k v) W = (Raise KeyError, W).
Proof.
  intros Hne Hkey. destruct facets as [|[k v] fs]; [done|].
  simpl. unfold bind at 1. unfold properties_setattr. unfold bind at 1.
  unfold properties_getitem. destruct key as [n|]; [|done].
  by rewrite Hkey.
Qed.

Lemma value_loop_absent (l : Listener) (facets : list (string * Value)) W :
  "value" ∉ facets.*1 →
  for_each facets
    (λ '(k, v), if decide (k = "value") then call_listener l v else ret tt) W
  = (Ok tt, W).
Proof.
  induction facets as [|[k v] fs IH]; intros Hnin; [done|].
  simpl in *. apply not_elem_of_cons in Hnin as [Hne Hnin].
  unfold bind. rewrite decide_False by done. unfold ret at 1. by apply IH.
Qed.

Lemma value_loop (l : Listener) (facets : list (string * Value)) W :
  NoDup facets.*1 →
  for_each facets
    (λ '(k, v), if decide (k = "value") then call_listener l v else ret tt) W
  = (match dict_get "value" facets with
     | Some v => listener_result l v
     | None => Ok tt
     end,
     add_events (match dict_get "value" facets with
                 | Some v => [Called l v]
                 | None => []
                 end) W).
Proof.
  induction facets as [|[k v] fs IH]; intros Hnd.
  - simpl. by rewrite add_events_nil.
  - simpl in *. inversion Hnd as [|? ? Hnin Hnd']; subst. unfold bind.
    destruct (decide (k = "value")) as [->|Hne].
    + rewrite call_listener_run. destruct (listener_result l v) as [[]|e]; [|done].
      by rewrite value_loop_absent.
    + unfold ret at 1. by apply IH.
Qed.

Lemma listeners_loop (ls : list Listener) (facets : list (string * Value)) W :
  NoDup facets.*1 →
  for_each ls
    (λ listener,
       for_each facets
         (λ '(k, v), if decide (k = "value") then call_listener listener v else ret tt)) W
  = (match dict_get "value" facets with
     | Some v => listeners_outcome ls v
     | None => Ok tt
     end,
     add_events (match dict_get "value" facets with
                 | Some v => map (λ l, Called l v) (called_listeners ls v)
                 | None => []
                 end) W).
Proof.
  intros Hnd. revert W. induction ls as [|l ls IH]; intros W.
  - simpl. unfold ret. destruct (dict_get "value" facets); by rewrite add_events_nil.
  - simpl. unfold bind. rewrite value_loop by done.
    destruct (dict_get "value" facets) as [v|].
    + destruct (listener_result l v) as [[]|e]; [|done].
      rewrite IH. by rewrite add_events_app.
    + rewrite IH. by rewrite add_events_app.
Qed.

(** When the loop returns, every listener of the list was called. *)
Lemma listeners_loop_ok (ls : list Listener) (facets : list (string * Value)) W W' :
  NoDup facets.*1 →
  for_each ls
    (λ listener,
       for_each facets
         (λ '(k, v), if decide (k = "value") then call_listener listener v else ret tt)) W
  = (Ok tt, W') →
  W' = add_events (match dict_get "value" facets with
                   | Some v => map (λ l, Called l v) ls
                   | None => []
                   end) W.
Proof.
  intros Hnd H. rewrite listeners_loop in H by done.
  destruct (dict_get "value" facets) as [v|]; [|congruence].
  assert (listeners_outcome ls v = Ok tt) as Hok by congruence.
  rewrite (called_listeners_all _ _ Hok) in H. congruence.
Qed.

(** *** One widget *)

Lemma widget_values_supported widget w info W :
  heap W !! widget = Some w → SUPPORT_WIDGET_TYPES (wtype w) = Some info →
  widget_values widget W = (read_facets w info, W).
Proof.
  intros Hw Hinfo. unfold widget_values, bind, get_widget. by rewrite Hw, Hinfo.
Qed.

Lemma widget_values_unsupported widget w W :
  heap W !! widget = Some w → SUPPORT_WIDGET_TYPES (wtype w) = None →
  widget_values widget W
  = (Ok [], if _show_warnings W then add_event (Warned widget (prop w)) W else W).
Proof.
  intros Hw Hinfo. unfold widget_values, bind, get_widget. rewrite Hw, Hinfo.
  by destruct (_show_warnings W).
Qed.

(** A call of the body of the loop that returns has made the assignments of
    [save_record] and added the events of [save_events]. *)
Lemma save_widget_ok widget W W' :
  save_widget widget W = (Ok tt, W') →
  W' = add_events (save_events W widget) (set_properties (save_record W widget) W).
Proof.
  unfold save_widget. intros H.
  apply bind_inv in H as [(w & W1 & Hw & H)|(e & _ & ?)]; [|done].
  apply get_widget_inv in Hw as [-> [(w0 & Hw & [= <-])|[_ ?]]]; [|done].
  apply bind_inv in H as [(facets & W1 & Hv & H)|(e & _ & ?)]; [|done].
  unfold save_events, save_record, widget_property_name in *. rewrite Hw.
  destruct (SUPPORT_WIDGET_TYPES (wtype w)) as [info|] eqn:Hinfo.
  - rewrite (widget_values_supported _ _ _ _ Hw Hinfo) in Hv.
    inversion Hv as [[Hf HW]]. subst W1. rewrite Hf.
    pose proof (read_facets_NoDup _ _ _ Hf) as Hnd.
    apply bind_inv in H as [([] & W1 & Hset & H)|(e & _ & ?)]; [|done].
    apply listeners_loop_ok in H; [|done]. subst W'.
    destruct (prop w) as [n|] eqn:Hn.
    + destruct (_properties W !! n) as [p|] eqn:Hp.
      * rewrite (setattr_loop_registered _ _ _ _ Hp) in Hset.
        inversion Hset; subst W1. done.
      * destruct facets as [|kv fs].
        -- simpl in Hset. inversion Hset; subst W1. by rewrite set_properties_id.
        -- rewrite setattr_loop_unregistered in Hset; [done|done|].
           intros n' [= <-]. done.
    + destruct facets as [|kv fs].
      * simpl in Hset. inversion Hset; subst W1. by rewrite set_properties_id.
      * rewrite setattr_loop_unregistered in Hset; [done|done|done].
  - rewrite (widget_values_unsupported _ _ _ Hw Hinfo) in Hv.
    inversion Hv; subst facets W1. clear Hv.
    simpl in H. unfold bind, ret in H.
    assert (∀ ls W0, for_each ls (λ _ : Listener, (λ W, (Ok tt, W)) : M unit) W0
                     = (Ok tt, W0)) as Hnop.
    { induction ls as [|l ls IH]; intros W0; [done|]. simpl. unfold bind. apply IH. }
    rewrite Hnop in H. inversion H; subst W'.
    rewrite set_properties_id.
    destruct (_show_warnings W); [done|by rewrite add_events_nil].
Qed.

Lemma save_widget_unsupported widget w W :
  heap W !! widget = Some w → SUPPORT_WIDGET_TYPES (wtype w) = None →
  save_widget widget W
  = (Ok tt, if _show_warnings W then add_event (Warned widget (prop w)) W else W).
Proof.
  intros Hw Hinfo. unfold save_widget. unfold bind at 1. unfold get_widget. rewrite Hw.
  unfold bind at 1. rewrite (widget_values_unsupported _ _ _ Hw Hinfo).
  simpl. unfold bind at 1. unfold ret at 1.
  assert (∀ ls W0, for_each ls (λ _ : Listener, ret tt : M unit) W0 = (Ok tt, W0)) as Hnop.
  { induction ls as [|l ls IH]; intros W0; [done|]. simpl. unfold bind. apply IH. }
  apply Hnop.
Qed.

Lemma save_widget_raises_facets widget w info facets W :
  heap W !! widget = Some w → SUPPORT_WIDGET_TYPES (wtype w) = Some info →
  read_facets w info = Ok facets → facets ≠ [] →
  (∀ n, prop w = Some n → _properties W !! n = None) →
  save_widget widget W = (Raise KeyError, W).
Proof.
  intros Hw Hinfo Hf Hne Hun. unfold save_widget. unfold bind at 1. unfold get_widget.
  rewrite Hw. unfold bind at 1. rewrite (widget_values_supported _ _ _ _ Hw Hinfo).
  rewrite Hf. unfold bind at 1. by rewrite setattr_loop_unregistered.
Qed.

Lemma save_widget_raises widget w info W :
  heap W !! widget = Some w → SUPPORT_WIDGET_TYPES (wtype w) = Some info →
  getsets info ≠ [] →
  (∀ n, prop w = Some n → _properties W !! n = None) →
  ∃ e, save_widget widget W = (Raise e, W).
Proof.
  intros Hw Hinfo Hgs Hun.
  destruct (read_facets w info) as [fs|e] eqn:Hf.
  - exists KeyError. eapply save_widget_raises_facets; try eassumption.
    by eapply read_facets_not_nil.
  - exists e. unfold save_widget. unfold bind at 1. unfold get_widget.
    rewrite Hw. unfold bind at 1. rewrite (widget_values_supported _ _ _ _ Hw Hinfo).
    by rewrite Hf.
Qed.

Lemma update_widget_unsupported widget w W :
  heap W !! widget = Some w → SUPPORT_WIDGET_TYPES (wtype w) = None →
  update_widget widget W
  = (Ok tt, if _show_warnings W then add_event (Warned widget (prop w)) W else W).
Proof.
  intros Hw Hinfo. unfold update_widget, bind, get_widget. rewrite Hw, Hinfo.
  unfold ret. simpl. by destruct (_show_warnings W).
Qed.

Lemma update_widget_raises widget w info W :
  heap W !! widget = Some w → SUPPORT_WIDGET_TYPES (wtype w) = Some info →
  getsets info ≠ [] →
  (∀ n, prop w = Some n → _properties W !! n = None) →
  update_widget widget W = (Raise KeyError, W).
Proof.
  intros Hw Hinfo Hgs Hun. unfold update_widget. unfold bind at 1. unfold get_widget.
  rewrite Hw, Hinfo. destruct (getsets info) as [|g gs]; [done|].
  unfold enumerate. simpl. unfold bind at 1. unfold bind at 1. unfold bind at 1.
  unfold properties_getitem, widget_property_name.
  destruct (prop w) as [n|]; [|done]. by rewrite Hun.
Qed.

(** *** The loop over the widgets *)

Lemma for_each_app_ok {A} (l1 l2 : list A) (body : A → M unit) W W' :
  for_each (l1 ++ l2) body W = (Ok tt, W') →
  ∃ W1, for_each l1 body W = (Ok tt, W1) ∧ for_each l2 body W1 = (Ok tt, W').
Proof.
  revert W. induction l1 as [|x l1 IH]; intros W H; simpl in *.
  - eauto.
  - apply bind_inv in H as [([] & W0 & Hx & H)|(e & _ & ?)]; [|done].
    destruct (IH _ H) as (W1 & H1 & H2). exists W1. split; [|done].
    unfold bind. by rewrite Hx.
Qed.

Lemma save_record_untagged W i p :
  tagged_with p W i = false → save_record W i !! p = _properties W !! p.
Proof.
  unfold tagged_with, save_record. destruct (heap W !! i) as [w|]; [|done].
  destruct (SUPPORT_WIDGET_TYPES (wtype w)); [|done].
  destruct (prop w) as [n|]; [|done]. intros Hne.
  apply bool_decide_eq_false in Hne.
  destruct (read_facets _ _); [|done]. destruct (_properties W !! n); [|done].
  by rewrite lookup_insert_ne.
Qed.

Lemma save_record_unregistered W i n :
  _properties W !! n = None → save_record W i !! n = None.
Proof.
  unfold save_record. intros Hn. destruct (heap W !! i) as [w|]; [|done].
  destruct (SUPPORT_WIDGET_TYPES (wtype w)); [|done].
  destruct (prop w) as [n'|]; [|done].
  destruct (read_facets _ _); [|done].
  destruct (_properties W !! n') eqn:Hn'; [|done].
  rewrite lookup_insert_ne; [done|congruence].
Qed.

Lemma save_loop_ok (l : list nat) W W' :
  for_each l save_widget W = (Ok tt, W') →
  heap W' = heap W ∧ _widgets W' = _widgets W ∧ _listeners W' = _listeners W ∧
  _show_warnings W' = _show_warnings W ∧ _block_save W' = _block_save W ∧
  trace W' = trace W ++ flat_map (save_events W) l ∧
  ∀ p, Forall (λ j, tagged_with p W j = false) l →
       _properties W' !! p = _properties W !! p.
Proof.
  revert W. induction l as [|x l IH]; intros W H; simpl in H.
  - inversion H; subst. simpl. by rewrite app_nil_r.
  - apply bind_inv in H as [([] & W1 & Hx & H)|(e & _ & ?)]; [|done].
    apply save_widget_ok in Hx. destruct (IH _ H) as (Hh & Hw & Hl & Hs & Hb & Ht & Hp).
    subst W1. simpl in *. repeat split; try done.
    + rewrite Ht. simpl. by rewrite <- app_assoc.
    + intros p Hall. inversion Hall as [|? ? Hx Hl']; subst.
      rewrite Hp.
      * by apply save_record_untagged.
      * eapply Forall_impl; [exact Hl'|]. by intros j Hj.
Qed.

Lemma save_loop_raises (l : list nat) widget w info W :
  widget ∈ l → heap W !! widget = Some w →
  SUPPORT_WIDGET_TYPES (wtype w) = Some info → getsets info ≠ [] →
  (∀ n, prop w = Some n → _properties W !! n = None) →
  ∃ e W', for_each l save_widget W = (Raise e, W').
Proof.
  revert W. induction l as [|x l IH]; intros W Hin Hw Hinfo Hgs Hun;
    [by apply elem_of_nil in Hin|].
  simpl. unfold bind.
  destruct (save_widget x W) as [[[]|e] W1] eqn:Hx; [|eauto].
  apply elem_of_cons in Hin as [->|Hin].
  - destruct (save_widget_raises _ _ _ _ Hw Hinfo Hgs Hun) as [e He]. congruence.
  - apply save_widget_ok in Hx. subst W1. apply IH; try done.
    intros n Hn. simpl. apply save_record_unregistered. by apply Hun.
Qed.

(** C10.  With the guard down, a call of [save_properties] that returns has
    gone through the widgets in the order of the registry: the events it
    added are those of the first widget, then those of the second, and so on,
    where a widget whose facets have the key ["value"] brings one call of
    each listener of its property, in the order of registration, and a
    widget without that key brings no call; and the record of a property ends
    with every facet read from the last widget of the registry that is
    linked to it. *)
Theorem save_properties_registry_order W W' p l1 i l2 w info facets k v :
  _block_save W = false →
  save_properties W = (Ok tt, W') →
  property_widgets W = l1 ++ i :: l2 →
  tagged_with p W i = true →
  Forall (λ j, tagged_with p W j = false) l2 →
  heap W !! i = Some w →
  SUPPORT_WIDGET_TYPES (wtype w) = Some info →
  read_facets w info = Ok facets →
  dict_get k facets = Some v →
  trace W' = trace W ++ flat_map (save_events W) (property_widgets W) ∧
  save_events W i = match dict_get "value" facets with
                    | Some x => map (λ l, Called l x) (listeners_get (Some p) W)
                    | None => []
                    end ∧
  ∃ q, _properties W' !! p = Some q ∧ getattr q k = Some v.
Proof.
  intros Hb H Hl Htag Hrest Hw Hinfo Hf Hk.
  unfold save_properties in H. rewrite Hb in H.
  assert (prop w = Some p) as Hp.
  { unfold tagged_with in Htag. rewrite Hw in Htag.
    destruct (prop w) as [n|]; [|done]. apply bool_decide_eq_true in Htag. by subst. }
  split; [by apply save_loop_ok in H as (_ & _ & _ & _ & _ & Ht & _)|].
  split; [unfold save_events; by rewrite Hw, Hinfo, Hf, Hp|].
  rewrite Hl in H. apply for_each_app_ok in H as (W1 & H1 & H2).
  simpl in H2. apply bind_inv in H2 as [([] & W2 & Hi & H2)|(e & _ & ?)]; [|done].
  apply save_loop_ok in H1 as (Hh1 & _ & _ & _ & _ & _ & _).
  assert (heap W1 !! i = Some w) as Hw1 by by rewrite Hh1.
  assert (is_Some (_properties W1 !! p)) as [q0 Hq0].
  { destruct (_properties W1 !! p) as [q0|] eqn:Hq0; [eauto|].
    rewrite (save_widget_raises_facets i w info facets W1) in Hi; try done.
    - intros ->. done.
    - intros n Hn. congruence. }
  apply save_widget_ok in Hi.
  apply save_loop_ok in H2 as (_ & _ & _ & _ & _ & _ & Hkeep).
  exists (setattr_all q0 facets). split.
  - rewrite Hkeep.
    + subst W2. simpl. unfold save_record. rewrite Hw1, Hinfo, Hp, Hf, Hq0.
      apply lookup_insert_eq.
    + eapply Forall_impl; [exact Hrest|]. intros j Hj. subst W2.
      unfold tagged_with in *. simpl. by rewrite Hh1.
  - apply setattr_all_get; [by eapply read_facets_NoDup|by apply dict_get_elem_of].
Qed.

(** ** A tag that is not a property *)

(** Every class of the table has exactly one accessor pair. *)
Lemma table_one_pair t info :
  SUPPORT_WIDGET_TYPES t = Some info → ∃ g, getsets info = [g].
Proof. destruct t; intros [= <-]; eauto. Qed.

(** C3, as the code has it.  For a tracked widget whose tag is not a key of
    the registry: when its class is not in the table, [update_widget] and the
    turn of [save_properties] for it return, having done nothing but log the
    warning (if warnings are on); when its class is in the table,
    [update_widget] raises [KeyError] before any setter is called, the turn
    of [save_properties] for it raises, and so does [save_properties] when
    the guard is down. *)
Theorem stale_tag_skipped_only_when_unsupported widget w W :
  widget ∈ property_widgets W →
  heap W !! widget = Some w →
  (∀ n, prop w = Some n → _properties W !! n = None) →
  match SUPPORT_WIDGET_TYPES (wtype w) with
  | None =>
      update_widget widget W
      = (Ok tt, if _show_warnings W then add_event (Warned widget (prop w)) W else W) ∧
      save_widget widget W
      = (Ok tt, if _show_warnings W then add_event (Warned widget (prop w)) W else W)
  | Some _ =>
      update_widget widget W = (Raise KeyError, W) ∧
      (∃ e, save_widget widget W = (Raise e, W)) ∧
      (_block_save W = false → ∃ e W', save_properties W = (Raise e, W'))
  end.
Proof.
  intros Hin Hw Hun. destruct (SUPPORT_WIDGET_TYPES (wtype w)) as [info|] eqn:Hinfo.
  - assert (getsets info ≠ []) as Hgs
      by (destruct (table_one_pair _ _ Hinfo) as [g ->]; done).
    split; [by eapply update_widget_raises|].
    split; [by eapply save_widget_raises|].
    intros Hb. unfold save_properties. rewrite Hb. by eapply save_loop_raises.
  - split; [by apply update_widget_unsupported|by apply save_widget_unsupported].
Qed.

(** ** Linking *)

(** With warnings on, a widget whose class is not in the table is refused:
    [link_property] returns [False], and nothing but the log has changed, so
    the widget is neither tagged nor tracked. *)
Lemma link_property_unsupported_warned widget w n W :
  _show_warnings W = true →
  heap W !! widget = Some w →
  SUPPORT_WIDGET_TYPES (wtype w) = None →
  widget ∉ property_widgets W →
  link_property widget n W = (Ok false, add_event (Warned widget (Some n)) W).
Proof.
  intros Hs Hw Hinfo Hnin. unfold link_property.
  rewrite decide_False by done. unfold bind at 1. unfold get_widget. rewrite Hw.
  rewrite Hinfo. unfold bind at 1. unfold ret at 1. simpl. by rewrite Hs.
Qed.

(** A widget that is already tracked is refused whatever its class. *)
Lemma link_property_tracked widget n W :
  widget ∈ property_widgets W → link_property widget n W = (Ok false, W).
Proof. intros Hin. unfold link_property. by rewrite decide_True. Qed.

(** ** When the calls return *)

Lemma update_widget_unsupported_tail widget w W :
  (let* modified := ret false in
   λ W0, if negb modified && _show_warnings W0
         then log_event (Warned widget (widget_property_name w)) W0
         else (Ok tt, W0)) W
  = (Ok tt, if _show_warnings W then add_event (Warned widget (prop w)) W else W).
Proof. unfold bind, ret. simpl. by destruct (_show_warnings W). Qed.

(** Under the guard, a widget whose tag is a property is refreshed without
    an exception as soon as the toolkit's setter accepts the value. *)
Lemma update_widget_returns widget w n q W :
  (∀ t st s v, ∃ st' emitted, call_setter t st s v = Ok (st', emitted)) →
  _block_save W = true →
  heap W !! widget = Some w → prop w = Some n → _properties W !! n = Some q →
  ∃ W', update_widget widget W = (Ok tt, W').
Proof.
  intros Htotal Hb Hw Hn Hq. unfold update_widget. unfold bind at 1.
  unfold get_widget at 1. rewrite Hw.
  destruct (SUPPORT_WIDGET_TYPES (wtype w)) as [info|] eqn:Hinfo.
  - destruct (table_one_pair _ _ Hinfo) as [g ->]. unfold enumerate. simpl.
    unfold bind at 1. unfold bind at 1. unfold bind at 1.
    unfold properties_getitem, widget_property_name. rewrite Hn, Hq.
    change (getattr q "value") with (Some (value q)). unfold ret at 1.
    unfold bind at 1. unfold bind at 1. unfold get_widget. rewrite Hw.
    unfold bind at 1. unfold call_widget_setter. unfold bind at 1.
    unfold log_event, modify.
    destruct (Htotal (wtype w) (wstate w) (setter g) (value q)) as (st & em & ->).
    unfold bind at 1. unfold put_widget, modify.
    rewrite deliver_blocked by done. unfold ret. simpl. eauto.
  - rewrite (update_widget_unsupported_tail widget w W). eauto.
Qed.

Lemma tagged_with_inv p W i :
  tagged_with p W i = true → ∃ w, heap W !! i = Some w ∧ prop w = Some p.
Proof.
  unfold tagged_with. destruct (heap W !! i) as [w|]; [|done].
  destruct (prop w) as [n|] eqn:Hn; [|done]. intros H. apply bool_decide_eq_true in H.
  subst. eauto.
Qed.

Lemma refresh_loop_returns (l : list nat) p W :
  (∀ t st s v, ∃ st' emitted, call_setter t st s v = Ok (st', emitted)) →
  _block_save W = true → is_Some (_properties W !! p) →
  Forall (λ i, tagged_with p W i = true) l →
  ∃ W' evs, for_each l update_widget W = (Ok tt, W') ∧ steady W W' evs.
Proof.
  intros Htotal. revert W. induction l as [|x l IH]; intros W Hb [q Hq] Hl.
  - exists W, []. split; [done|apply steady_refl].
  - inversion Hl as [|? ? Hx Hl']; subst.
    destruct (tagged_with_inv _ _ _ Hx) as (w & Hw & Hn).
    destruct (update_widget_returns _ _ _ _ _ Htotal Hb Hw Hn Hq) as [W1 H1].
    destruct (update_widget_blocked _ _ _ _ Hb H1) as (e1 & S1 & _ & B1).
    destruct (IH W1) as (W' & e2 & H2 & S2); [done| | |].
    + rewrite (steady_properties _ _ _ S1). eauto.
    + eapply Forall_impl; [exact Hl'|]. intros j Hj. simpl in *.
      by rewrite (steady_tagged _ _ _ _ _ S1).
    + exists W', (e1 ++ e2). split; [|by eapply steady_trans].
      simpl. unfold bind. by rewrite H1.
Qed.

Lemma blockSignals_loop_returns (l : list nat) b W :
  Forall (λ i, is_Some (heap W !! i)) l →
  ∃ W', for_each l (λ widget, blockSignals widget b) W = (Ok tt, W') ∧ steady W W' [].
Proof.
  revert W. induction l as [|x l IH]; intros W Hl.
  - exists W. split; [done|apply steady_refl].
  - inversion Hl as [|? ? [w Hw] Hl']; subst.
    assert (∃ W1, blockSignals x b W = (Ok tt, W1)) as [W1 H1].
    { unfold blockSignals, bind, get_widget. rewrite Hw. unfold put_widget, modify. eauto. }
    pose proof (blockSignals_steady _ _ _ _ _ H1) as S1.
    destruct (IH W1) as (W' & H2 & S2).
    + eapply Forall_impl; [exact Hl'|]. intros j Hj. simpl in *.
      by apply (steady_live _ _ _ _ S1).
    + exists W'. split; [|by apply (steady_trans _ _ _ [] [] S1 S2)].
      simpl. unfold bind. by rewrite H1.
Qed.

(** When the setters of the toolkit accept what they are given,
    [update_property] on a registered name gets through the refresh and ends
    as the loop over the listeners of the name does. *)
Lemma update_property_run p v q W :
  (∀ t st s v, ∃ st' emitted, call_setter t st s v = Ok (st', emitted)) →
  _properties W !! p = Some q →
  ∃ W1 evs,
    steady (set_block_save true
              (set_properties (<[p := set_value v q]> (_properties W)) W)) W1 evs ∧
    no_listener_called evs ∧
    update_property p v W
    = (listeners_outcome (listeners_get (Some p) W) v,
       foldl (λ W l, add_event (Called l v) W) (set_block_save false W1)
         (called_listeners (listeners_get (Some p) W) v)).
Proof.
  intros Htotal Hq. unfold update_property. rewrite Hq.
  unfold modify. unfold bind at 1.
  set (Wp := set_properties (<[p := set_value v q]> (_properties W)) W).
  unfold bind at 1. unfold update_widget_from_property. unfold bind at 1.
  unfold modify at 1. set (Wb := set_block_save true Wp).
  destruct (refresh_loop_returns (widgets_linked_to_property p Wb) p Wb Htotal)
    as (W1 & e1 & H1 & S1); [done| | |].
  { simpl. rewrite lookup_insert_eq. eauto. }
  { apply Forall_forall. intros i Hi.
    by apply list_elem_of_filter in Hi as [Hi _]; destruct (tagged_with p Wb i). }
  destruct (blockSignals_loop_returns (widgets_linked_to_property p Wb) false W1)
    as (W2 & H2 & S2).
  { apply Forall_forall. intros i Hi.
    apply list_elem_of_filter in Hi as [_ Hi].
    apply list_elem_of_filter in Hi as [Hi _].
    by apply (steady_live _ _ _ _ S1). }
  assert ((for_each (widgets_linked_to_property p Wb) update_widget ;;
           for_each (widgets_linked_to_property p Wb)
             (λ widget, blockSignals widget false)) Wb = (Ok tt, W2)) as Hb
    by (unfold bind; by rewrite H1).
  apply refresh_loops_blocked in Hb as (evs & S & N); [|done].
  exists W2, evs. split; [done|]. split; [done|].
  unfold bind at 1. rewrite H1. unfold bind at 1. rewrite H2. unfold modify.
  rewrite call_listeners_run.
  assert (listeners_get (Some p) (set_block_save false W2) = listeners_get (Some p) W)
    as ->; [|done].
  unfold listeners_get. simpl.
  by rewrite (steady_listeners _ _ _ S2), (steady_listeners _ _ _ S1).
Qed.

(** [update_property] on a registered name returns when the setters of the
    toolkit accept what they are given and the listeners of the name return
    on the value. *)
Lemma update_property_returns p v W :
  (∀ t st s v, ∃ st' emitted, call_setter t st s v = Ok (st', emitted)) →
  Forall (λ l, listener_result l v = Ok tt) (listeners_get (Some p) W) →
  is_Some (_properties W !! p) →
  ∃ W', update_property p v W = (Ok tt, W').
Proof.
  intros Htotal Hls [q Hq].
  destruct (update_property_run p v q W Htotal Hq) as (W1 & evs & _ & _ & ->).
  apply listeners_outcome_ok in Hls. rewrite Hls. eauto.
Qed.




Lemma save_record_registered W i n :
  is_Some (_properties W !! n) → is_Some (save_record W i !! n).
Proof.
  unfold save_record. intros Hn. destruct (heap W !! i) as [w|]; [|done].
  destruct (SUPPORT_WIDGET_TYPES (wtype w)); [|done].
  destruct (prop w) as [n'|]; [|done].
  destruct (read_facets _ _); [|done].
  destruct (_properties W !! n') eqn:Hn'; [|done].
  destruct (decide (n' = n)) as [->|Hne].
  - rewrite lookup_insert_eq. eauto.
  - by rewrite lookup_insert_ne.
Qed.



End ModelFacts.

(** ** Discovery *)

Section Discovery.

Lemma iterate_linkable_properties_unfold (d : list (string * Obj)) (cs : list QObject) :
  iterate_linkable_properties (mkQObject d cs)
  = linkable_attributes d ++
    flat_map (λ child, linkable_attributes (__dict__ child) ++
                       iterate_linkable_properties child) cs.
Proof. reflexivity. Qed.

(** Induction on the object tree. *)
Lemma QObject_tree_ind (P : QObject → Prop) :
  (∀ d cs, Forall P cs → P (mkQObject d cs)) → ∀ widget, P widget.
Proof.
  intros Hstep. fix IH 1. intros [d cs]. apply Hstep.
  induction cs as [|c cs IHcs]; constructor; [apply IH|exact IHcs].
Qed.

(** The walk yields the attributes of the object it is called on once and
    those of every other object of the tree twice: in numbers, it is as long
    as two single walks less the attributes of the root. *)
Lemma iterate_linkable_properties_length (widget : QObject) :
  length (iterate_linkable_properties widget)
    + length (linkable_attributes (__dict__ widget))
  = 2 * length (each_object_once widget).
Proof.
  induction widget as [d cs IH] using QObject_tree_ind.
  rewrite iterate_linkable_properties_unfold. simpl.
  rewrite !length_app.
  assert (length (flat_map (λ child, linkable_attributes (__dict__ child) ++
                                     iterate_linkable_properties child) cs)
          = 2 * length (flat_map each_object_once cs)) as ->; [|lia].
  induction cs as [|c cs IHcs]; [done|].
  inversion IH as [|? ? Hc Hcs]; subst. simpl. rewrite !length_app.
  rewrite (IHcs Hcs). lia.
Qed.

End Discovery.

(** ** More on linking *)

Section Linking.
Context `{TK : Toolkit}.
Implicit Types (W : World) (evs : list Event).

Lemma filter_agree {A} (P1 P2 : A → Prop)
    `{!∀ x, Decision (P1 x), !∀ x, Decision (P2 x)} (l : list A) :
  Forall (λ x, P1 x ↔ P2 x) l → filter P1 l = filter P2 l.
Proof.
  induction 1 as [|x l Hx Hl IH]; [done|].
  rewrite !filter_cons. rewrite IH.
  destruct (decide (P1 x)), (decide (P2 x)); tauto.
Qed.

(** The ways a call of [link_property] can go. *)
Lemma link_property_inv widget n W (r : Res bool) W' :
  link_property widget n W = (r, W') →
  (widget ∈ property_widgets W ∧ r = Ok false ∧ W' = W) ∨
  (heap W !! widget = None ∧ r = Raise RuntimeError ∧ W' = W) ∨
  (∃ w, heap W !! widget = Some w ∧ (widget ∉ property_widgets W) ∧
     ((∃ info, SUPPORT_WIDGET_TYPES (wtype w) = Some info ∧
               has_signal (wtype w) (save_signal info) = false ∧
               r = Raise AttributeError ∧ W' = W) ∨
      (SUPPORT_WIDGET_TYPES (wtype w) = None ∧ _show_warnings W = true ∧
       r = Ok false ∧ W' = add_event (Warned widget (Some n)) W) ∨
      (∃ sigs, (match SUPPORT_WIDGET_TYPES (wtype w) with
                | Some info => (has_signal (wtype w) (save_signal info) = true ∧
                                sigs = [save_signal info])
                | None => (_show_warnings W = false ∧ sigs = [])
                end) ∧
               r = Ok true ∧
               W' = set_widgets (_widgets W ++ [widget])
                      (set_heap
                         (<[widget := mkWidget (wtype w) (Some n) (extraProperties w)
                                        (signalsBlocked w) (connections w ++ sigs)
                                        (wstate w)]> (heap W)) W)))).
Proof.
  unfold link_property. destruct (decide (widget ∈ property_widgets W)) as [Hin|Hnin].
  { intros [= <- <-]. by left. }
  unfold bind at 1. unfold get_widget at 1.
  destruct (heap W !! widget) as [w|] eqn:Hw.
  2:{ intros [= <- <-]. right. by left. }
  intros H. right. right. exists w. split; [done|]. split; [done|].
  destruct (SUPPORT_WIDGET_TYPES (wtype w)) as [info|] eqn:Hinfo.
  - destruct (has_signal (wtype w) (save_signal info)) eqn:Hsig.
    + right. right. exists [save_signal info]. split; [done|].
      unfold bind, put_widget, modify, ret, get_widget in H. simpl in H.
      rewrite lookup_insert_eq in H. simpl in H. inversion H; subst.
      split; [done|]. unfold set_widgets, set_heap. simpl.
      by rewrite insert_insert_eq.
    + left. exists info. unfold bind, raise in H. inversion H; subst. done.
  - unfold bind at 1 in H. unfold ret at 1 in H. simpl in H.
    destruct (_show_warnings W) eqn:Hs.
    + right. left. unfold bind, log_event, modify, ret in H. inversion H; subst. done.
    + right. right. exists []. split; [done|].
      unfold bind, put_widget, modify, ret, get_widget in H. rewrite Hw in H.
      inversion H; subst. split; [done|]. by rewrite app_nil_r.
Qed.

Lemma live_tracked widget W :
  is_Some (heap W !! widget) → widget ∉ property_widgets W → widget ∉ _widgets W.
Proof.
  intros Hlive Hnin Hin. apply Hnin. unfold property_widgets.
  apply list_elem_of_filter. done.
Qed.

Lemma link_property_supported_run widget w info n W :
  heap W !! widget = Some w → widget ∉ property_widgets W →
  SUPPORT_WIDGET_TYPES (wtype w) = Some info →
  has_signal (wtype w) (save_signal info) = true →
  link_property widget n W
  = (Ok true,
     set_widgets (_widgets W ++ [widget])
       (set_heap (<[widget := link_widget w (save_signal info) n]> (heap W)) W)).
Proof.
  intros Hw Hnin Hinfo Hsig.
  destruct (link_property widget n W) as [r W'] eqn:H.
  apply link_property_inv in H as [(? & _)|[(? & _)|(w0 & Hw0 & _ & H)]];
    [done|congruence|].
  assert (w0 = w) as -> by congruence.
  destruct H as [(info0 & ? & ? & _)|[(? & _)|(sigs & Hs & -> & ->)]];
    [congruence|congruence|].
  rewrite Hinfo in Hs. by destruct Hs as [_ ->].
Qed.

(** X1.  Linking a widget that is alive, not yet tracked, of a class of the
    table that has its save signal: [link_property] returns [True]; the
    widget gets the tag and one more connection of its save signal to
    [save_properties], and goes to the end of the registry, everything else
    staying as it was; [widgets_linked_to_property] for that name now ends
    with it; and linking it again returns [False] and changes nothing. *)
Theorem link_property_links_supported widget w info n W :
  heap W !! widget = Some w → widget ∉ property_widgets W →
  SUPPORT_WIDGET_TYPES (wtype w) = Some info →
  has_signal (wtype w) (save_signal info) = true →
  ∃ W', link_property widget n W = (Ok true, W') ∧
        W' = set_widgets (_widgets W ++ [widget])
               (set_heap (<[widget := link_widget w (save_signal info) n]> (heap W)) W) ∧
        widgets_linked_to_property n W' = widgets_linked_to_property n W ++ [widget] ∧
        (∀ m, link_property widget m W' = (Ok false, W')).
Proof.
  intros Hw Hnin Hinfo Hsig. eexists. split; [by eapply link_property_supported_run|].
  split; [done|].
  set (W' := set_widgets _ _).
  assert (widget ∉ _widgets W) as Hnew by (apply live_tracked; eauto).
  assert (property_widgets W' = property_widgets W ++ [widget]) as Hpw.
  { unfold property_widgets, W'. simpl. rewrite filter_app. f_equal.
    - apply filter_agree. apply Forall_forall. intros j Hj.
      rewrite lookup_insert_ne; [done|]. intros ->. done.
    - rewrite filter_cons_True; [done|]. rewrite lookup_insert_eq. eauto. }
  split.
  - unfold widgets_linked_to_property. rewrite Hpw, filter_app. f_equal.
    + apply filter_agree. apply Forall_forall. intros j Hj.
      unfold tagged_with, W'. simpl. rewrite lookup_insert_ne; [done|].
      intros ->. apply Hnin. done.
    + rewrite filter_cons_True; [done|].
      unfold tagged_with, W'. simpl. rewrite lookup_insert_eq. simpl.
      by rewrite bool_decide_eq_true_2.
  - intros m. unfold link_property. rewrite decide_True; [done|].
    rewrite Hpw. apply elem_of_app. right. by apply list_elem_of_singleton.
Qed.

(** X2.  Whatever its arguments and however it ends, [link_property] keeps
    the registry free of repetitions, and keeps it true that every tracked
    widget that is alive carries a tag. *)
Theorem link_property_keeps_registry_sound widget n W (r : Res bool) W' :
  NoDup (_widgets W) → tracked_are_tagged W →
  link_property widget n W = (r, W') →
  NoDup (_widgets W') ∧ tracked_are_tagged W'.
Proof.
  intros Hnd Htag H.
  apply link_property_inv in H
    as [(_ & _ & ->)|[(_ & _ & ->)|(w & Hw & Hnin & H)]]; [done|done|].
  destruct H as [(info & _ & _ & _ & ->)|[(_ & _ & _ & ->)|(sigs & _ & _ & ->)]];
    [done|done|].
  assert (widget ∉ _widgets W) as Hnew by (apply live_tracked; eauto).
  split.
  - simpl. apply NoDup_app. split; [done|]. split; [|apply NoDup_singleton].
    intros x Hx Hx'. apply list_elem_of_singleton in Hx'. by subst.
  - intros i Hi. unfold property_widgets in Hi. simpl in Hi.
    apply list_elem_of_filter in Hi as [Hlive Hi]. simpl.
    destruct (decide (i = widget)) as [->|Hne].
    + rewrite lookup_insert_eq. eauto.
    + rewrite lookup_insert_ne in * by done.
      apply Htag. apply list_elem_of_filter. split; [done|].
      apply elem_of_app in Hi as [Hi|Hi]; [done|].
      apply list_elem_of_singleton in Hi. done.
Qed.

(** X3.  When the class of the widget is in the table but has no attribute
    of the name of its save signal, [getattr] fails before anything is
    written: [link_property] raises [AttributeError] and the widget is
    neither tagged nor tracked. *)
Theorem link_property_missing_signal widget w info n W :
  heap W !! widget = Some w → widget ∉ property_widgets W →
  SUPPORT_WIDGET_TYPES (wtype w) = Some info →
  has_signal (wtype w) (save_signal info) = false →
  link_property widget n W = (Raise AttributeError, W).
Proof.
  intros Hw Hnin Hinfo Hsig.
  destruct (link_property widget n W) as [r W'] eqn:H.
  apply link_property_inv in H as [(? & _)|[(? & _)|(w0 & Hw0 & _ & H)]];
    [done|congruence|].
  assert (w0 = w) as -> by congruence.
  destruct H as [(info0 & _ & _ & -> & ->)|[(? & _)|(sigs & Hs & _)]];
    [done|congruence|].
  rewrite Hinfo in Hs. destruct Hs as [? _]. congruence.
Qed.

End Linking.

(** ** More on the refresh and on [reset_properties] *)

Section Refresh.
Context `{TK : Toolkit}.
Implicit Types (W : World) (evs : list Event).

Notation "'let*' x ':=' c 'in' k" := (bind c (λ x, k))
  (at level 10, x name, c at level 100, k at level 200).
Notation "c ;; k" := (bind c (λ _, k))
  (at level 100, k at level 200, right associativity).

(** The second loop of the refresh: the widgets of the list end with the
    flag given, the others are as they were. *)
Lemma blockSignals_loop_sets (l : list nat) b W W' :
  for_each l (λ widget, blockSignals widget b) W = (Ok tt, W') →
  (∀ i, i ∈ l → signalsBlocked <$> (heap W' !! i) = Some b) ∧
  (∀ j, j ∉ l → heap W' !! j = heap W !! j).
Proof.
  revert W. induction l as [|x l IH]; intros W H; simpl in H.
  - inversion H; subst. split; [intros i Hi; by apply elem_of_nil in Hi|done].
  - apply bind_inv in H as [([] & W1 & Hx & Hl)|(e & _ & ?)]; [|done].
    destruct (IH _ Hl) as [Hin Hout].
    unfold blockSignals in Hx.
    apply bind_inv in Hx as [(w & W0 & Hw & Hx)|(e & _ & ?)]; [|done].
    apply get_widget_inv in Hw as [-> [(w0 & Hw & [= <-])|[_ ?]]]; [|done].
    unfold put_widget, modify in Hx. inversion Hx; subst W1. clear Hx.
    split.
    + intros i Hi. destruct (decide (i ∈ l)) as [Hil|Hil]; [by apply Hin|].
      apply elem_of_cons in Hi as [->|Hi]; [|done].
      rewrite (Hout _ Hil). simpl. by rewrite lookup_insert_eq.
    + intros j Hj. apply not_elem_of_cons in Hj as [Hne Hj].
      rewrite (Hout _ Hj). simpl. by rewrite lookup_insert_ne.
Qed.

Lemma update_widgets_from_properties_reaches W W' :
  update_widgets_from_properties W = (Ok tt, W') →
  _block_save W' = false ∧ _properties W' = _properties W ∧
  (∀ i, i ∈ property_widgets W → signalsBlocked <$> (heap W' !! i) = Some false) ∧
  ∃ evs, trace W' = trace W ++ evs ∧ no_listener_called evs ∧
    ∀ widget w info g gs n q,
      widget ∈ property_widgets W → heap W !! widget = Some w →
      SUPPORT_WIDGET_TYPES (wtype w) = Some info → getsets info = g :: gs →
      prop w = Some n → _properties W !! n = Some q →
      SetterCall widget (setter g) (value q) ∈ evs.
Proof.
  unfold update_widgets_from_properties, modify. unfold bind at 1.
  unfold try_finally. intros H.
  set (Wb := set_block_save true W) in *.
  destruct ((for_each (property_widgets Wb) update_widget ;;
             for_each (property_widgets Wb) (λ widget, blockSignals widget false)) Wb)
    as [r1 W1] eqn:Hbody.
  simpl in H. inversion H; subst r1 W'. clear H.
  apply bind_inv in Hbody as [([] & W2 & H1 & H2)|(e & _ & ?)]; [|done].
  apply refresh_loop_reaches in H1 as (e1 & S1 & N1 & Hall); [|done].
  pose proof H2 as H2'.
  eapply (for_each_steady _ _ (λ W, True)) in H2 as (e2 & S2 & N2 & _); [| |done].
  2:{ intros x Wx rx Wx' _ Hx. exists []. split; [by eapply blockSignals_steady|].
      split; [constructor|done]. }
  apply blockSignals_loop_sets in H2' as [Hset _].
  split; [done|]. split.
  { simpl. by rewrite (steady_properties _ _ _ S2), (steady_properties _ _ _ S1). }
  split; [intros i Hi; simpl; by apply Hset|].
  exists (e1 ++ e2). split.
  { simpl. rewrite (steady_trace _ _ _ S2), (steady_trace _ _ _ S1). simpl.
    by rewrite app_assoc. }
  split; [by apply Forall_app|].
  intros widget w info g gs n q Hin Hw Hinfo Hgs Hn Hq.
  apply elem_of_app. left.
  eapply (Hall widget (wtype w) n (extraProperties w) (connections w));
    [exact Hin| |eassumption|eassumption|exact Hq].
  simpl. rewrite Hw. simpl. unfold static. by rewrite Hn.
Qed.

(** X4.  A call of [update_widgets_from_properties] that returns has called,
    for every tracked widget of a class of the table whose tag is a
    property, the first setter of the class with the current value of that
    property; it has called no listener and changed no property; every
    tracked widget ends with its signals unblocked; and the guard is down. *)
Theorem update_widgets_from_properties_refreshes_all W W' :
  update_widgets_from_properties W = (Ok tt, W') →
  _block_save W' = false ∧ _properties W' = _properties W ∧
  (∀ i, i ∈ property_widgets W → signalsBlocked <$> (heap W' !! i) = Some false) ∧
  ∃ evs, trace W' = trace W ++ evs ∧ no_listener_called evs ∧
    ∀ widget w info g gs n q,
      widget ∈ property_widgets W → heap W !! widget = Some w →
      SUPPORT_WIDGET_TYPES (wtype w) = Some info → getsets info = g :: gs →
      prop w = Some n → _properties W !! n = Some q →
      SetterCall widget (setter g) (value q) ∈ evs.
Proof. apply update_widgets_from_properties_reaches. Qed.

Lemma reset_properties_inv (update_widgets : bool) W (r : Res unit) W' :
  reset_properties update_widgets W = (r, W') →
  (∀ k, _properties W' !! k = (λ p, set_value (default p) p) <$> (_properties W !! k)) ∧
  _listeners W' = _listeners W ∧ _widgets W' = _widgets W ∧
  (∃ evs, trace W' = trace W ++ evs ∧ no_listener_called evs) ∧
  (if update_widgets then _block_save W' = false
   else r = Ok tt ∧ heap W' = heap W ∧ trace W' = trace W ∧
        _block_save W' = _block_save W).
Proof.
  unfold reset_properties, modify. unfold bind at 1. intros H.
  destruct update_widgets.
  - apply update_widgets_from_properties_inv in H as (W1 & evs & S & N & ->). simpl.
    rewrite (steady_properties _ _ _ S), (steady_listeners _ _ _ S),
      (steady_widgets _ _ _ S). simpl.
    split; [intros k; apply lookup_fmap|]. split; [done|]. split; [done|].
    split; [|done]. exists evs. split; [apply (steady_trace _ _ _ S)|done].
  - unfold ret in H. inversion H; subst. simpl.
    split; [intros k; apply lookup_fmap|]. split; [done|]. split; [done|].
    split; [|done]. exists []. split; [by rewrite app_nil_r|constructor].
Qed.

(** X5.  [reset_properties] gives every record its default as value and
    changes no other field of any record; it calls no listener; without
    [update_widgets] it returns and touches nothing else; with it the guard
    is down at the end, however the refresh ends. *)
Theorem reset_properties_restores_defaults (update_widgets : bool) W (r : Res unit) W' :
  reset_properties update_widgets W = (r, W') →
  (∀ k, _properties W' !! k = (λ p, set_value (default p) p) <$> (_properties W !! k)) ∧
  _listeners W' = _listeners W ∧ _widgets W' = _widgets W ∧
  (∃ evs, trace W' = trace W ++ evs ∧ no_listener_called evs) ∧
  (if update_widgets then _block_save W' = false
   else r = Ok tt ∧ heap W' = heap W ∧ trace W' = trace W ∧
        _block_save W' = _block_save W).
Proof. apply reset_properties_inv. Qed.

(** X6.  A call of [reset_properties] with [update_widgets] that returns has
    pushed the default of its property to every tracked widget of a class
    of the table whose tag is a property. *)
Theorem reset_properties_pushes_defaults W W' :
  reset_properties true W = (Ok tt, W') →
  ∃ evs, trace W' = trace W ++ evs ∧
    ∀ widget w info g gs n q,
      widget ∈ property_widgets W → heap W !! widget = Some w →
      SUPPORT_WIDGET_TYPES (wtype w) = Some info → getsets info = g :: gs →
      prop w = Some n → _properties W !! n = Some q →
      SetterCall widget (setter g) (default q) ∈ evs.
Proof.
  unfold reset_properties, modify. unfold bind at 1. intros H.
  apply update_widgets_from_properties_reaches in H
    as (_ & _ & _ & evs & Ht & _ & Hall).
  exists evs. split; [exact Ht|].
  intros widget w info g gs n q Hin Hw Hinfo Hgs Hn Hq.
  assert (default q = value (set_value (default q) q)) as -> by done.
  eapply Hall; try eassumption. simpl. by rewrite lookup_fmap, Hq.
Qed.

(** X7.  [update_widgets_from_properties] ends with the guard down on every
    way out, also when it was entered with the guard up;
    [update_widget_from_property] ends with it down when it returns. *)
Theorem refresh_lowers_guard n W (r : Res unit) W1 W2 :
  update_widgets_from_properties W = (r, W1) →
  update_widget_from_property n W = (Ok tt, W2) →
  _block_save W1 = false ∧ _block_save W2 = false.
Proof.
  intros H1 H2. split.
  - by apply update_widgets_from_properties_inv in H1 as (? & ? & _ & _ & ->).
  - by apply update_widget_from_property_inv in H2
      as (? & ? & _ & _ & [[_ ->]|(e & ? & _)]).
Qed.

End Refresh.

(** ** What the refresh of one property touches *)

Section Touched.
Context `{TK : Toolkit}.
Implicit Types (W : World) (evs : list Event) (P : nat → Prop).

Notation "'let*' x ':=' c 'in' k" := (bind c (λ x, k))
  (at level 10, x name, c at level 100, k at level 200).
Notation "c ;; k" := (bind c (λ _, k))
  (at level 100, k at level 200, right associativity).

Lemma only_touches_refl P W : only_touches P W W.
Proof. split; [done|]. exists []. split; [by rewrite app_nil_r|constructor]. Qed.

Lemma only_touches_trans P W W1 W2 :
  only_touches P W W1 → only_touches P W1 W2 → only_touches P W W2.
Proof.
  intros [Hh1 (e1 & Ht1 & He1)] [Hh2 (e2 & Ht2 & He2)]. split.
  - intros j Hj. by rewrite Hh2, Hh1.
  - exists (e1 ++ e2). split; [by rewrite Ht2, Ht1, app_assoc|by apply Forall_app].
Qed.

Lemma only_touches_mono P Q W W' :
  (∀ i, P i → Q i) → only_touches P W W' → only_touches Q W W'.
Proof.
  intros HPQ [Hh (evs & Ht & He)]. split.
  - intros j Hj. apply Hh. intros HP. by apply Hj, HPQ.
  - exists evs. split; [done|]. eapply Forall_impl; [exact He|].
    intros e Hi i Hei. by apply HPQ, Hi.
Qed.

Lemma only_touches_event P W e :
  (∀ i, event_widget e = Some i → P i) → only_touches P W (add_event e W).
Proof. intros He. split; [done|]. exists [e]. split; [done|]. by constructor. Qed.

Lemma only_touches_put (i : nat) w W :
  only_touches (λ j, j = i) W (set_heap (<[i := w]> (heap W)) W).
Proof.
  split.
  - intros j Hj. simpl. rewrite lookup_insert_ne; [done|]. intros ->. by apply Hj.
  - exists []. split; [simpl; by rewrite app_nil_r|constructor].
Qed.

Lemma for_each_touches {A} (l : list A) (body : A → M unit) P (I : World → Prop) :
  (∀ x W r W', x ∈ l → I W → body x W = (r, W') → only_touches P W W' ∧ I W') →
  ∀ W r W', I W → for_each l body W = (r, W') → only_touches P W W' ∧ I W'.
Proof.
  induction l as [|x l IH]; intros Hbody W r W' HI H; simpl in H.
  - inversion H; subst. split; [apply only_touches_refl|done].
  - apply bind_inv in H as [(a & W1 & Hx & Hl)|(e & Hx & ->)].
    + destruct (Hbody x _ _ _ ltac:(left) HI Hx) as [T1 I1].
      destruct (IH ltac:(intros; eapply Hbody; eauto; by right) _ _ _ I1 Hl) as [T2 I2].
      split; [by eapply only_touches_trans|done].
    + by apply (Hbody x _ _ _ ltac:(left) HI Hx).
Qed.

Lemma for_fold_touches {A B} (l : list A) (body : B → A → M B) P (I : World → Prop) :
  (∀ b x W r W', I W → body b x W = (r, W') → only_touches P W W' ∧ I W') →
  ∀ b W r W', I W → for_fold l b body W = (r, W') → only_touches P W W' ∧ I W'.
Proof.
  intros Hbody. induction l as [|x l IH]; intros b W r W' HI H; simpl in H.
  - inversion H; subst. split; [apply only_touches_refl|done].
  - apply bind_inv in H as [(a & W1 & Hx & Hl)|(e & Hx & ->)].
    + destruct (Hbody _ _ _ _ _ HI Hx) as [T1 I1].
      destruct (IH _ _ _ _ I1 Hl) as [T2 I2].
      split; [by eapply only_touches_trans|done].
    + by apply (Hbody _ _ _ _ _ HI Hx).
Qed.

Lemma call_widget_setter_touches W i w s v (r : Res unit) W' :
  _block_save W = true →
  call_widget_setter i w s v W = (r, W') →
  only_touches (λ j, j = i) W W'.
Proof.
  intros Hb H. unfold call_widget_setter, log_event, modify in H.
  unfold bind at 1 in H.
  assert (only_touches (λ j, j = i) W (add_event (SetterCall i s v) W)) as T0.
  { apply only_touches_event. by intros ? [= <-]. }
  destruct (call_setter (wtype w) (wstate w) s v) as [[st em]|e].
  - unfold put_widget, modify in H. unfold bind at 1 in H.
    rewrite deliver_blocked in H by done. inversion H; subst.
    eapply only_touches_trans; [exact T0|].
    apply (only_touches_put i _ (add_event (SetterCall i s v) W)).
  - assert (W' = add_event (SetterCall i s v) W) as ->
      by (destruct e; unfold raise in H; by inversion H).
    done.
Qed.

Lemma update_step_touches widget (k : option string) (ig : nat * UiPropertyGetSet)
    W (r : Res bool) W' :
  _block_save W = true →
  (let* p := properties_getitem k in
   let* v := match getattr p (facet_of ig.1 ig.2) with
             | Some v => ret v
             | None => raise AttributeError
             end in
   let* w' := get_widget widget in
   call_widget_setter widget w' (setter ig.2) v ;;
   ret true) W = (r, W') →
  only_touches (λ j, j = widget) W W'.
Proof.
  intros Hb H.
  apply bind_inv in H as [(p & W1 & Hp & H)|(e & Hp & ->)];
    apply properties_getitem_inv in Hp as [-> _]; [|apply only_touches_refl].
  apply bind_inv in H as [(v & W1 & Hv & H)|(e & Hv & ->)].
  2:{ destruct (getattr p _); unfold ret, raise in Hv; inversion Hv; subst.
      apply only_touches_refl. }
  assert (W1 = W) as -> by (destruct (getattr p _); unfold ret, raise in Hv; by inversion Hv).
  apply bind_inv in H as [(w' & W1 & Hw & H)|(e & Hw & ->)];
    apply get_widget_inv in Hw as [-> Hw]; [|apply only_touches_refl].
  apply bind_inv in H as [([] & W1 & Hs & H)|(e & Hs & ->)].
  - unfold ret in H. inversion H; subst. by eapply call_widget_setter_touches.
  - by eapply call_widget_setter_touches.
Qed.

Lemma update_widget_touches widget W (r : Res unit) W' :
  _block_save W = true → update_widget widget W = (r, W') →
  only_touches (λ j, j = widget) W W'.
Proof.
  intros Hb H. unfold update_widget in H.
  apply bind_inv in H as [(w & W1 & Hw & H)|(e & Hw & ->)];
    apply get_widget_inv in Hw as [-> Hw]; [|apply only_touches_refl].
  assert (∀ (m : Res bool) W1,
            match SUPPORT_WIDGET_TYPES (wtype w) with
            | Some widget_info =>
                for_fold (enumerate (getsets widget_info)) false
                  (λ _ '(i, getset),
                     let* p := properties_getitem (widget_property_name w) in
                     let* v := match getattr p (facet_of i getset) with
                               | Some v => ret v
                               | None => raise AttributeError
                               end in
                     let* w' := get_widget widget in
                     call_widget_setter widget w' (setter getset) v ;;
                     ret true)
            | None => ret false
            end W = (m, W1) → only_touches (λ j, j = widget) W W1) as Hloop.
  { intros m W1 Hm. destruct (SUPPORT_WIDGET_TYPES (wtype w)) as [info|].
    - eapply (for_fold_touches _ _ _ (λ W, _block_save W = true)); [|exact Hb|exact Hm].
      intros b [i g] W2 r2 W2' Hb2 H2. split.
      + by apply (update_step_touches widget (widget_property_name w) (i, g)) in H2.
      + by apply (update_step_blocked widget (widget_property_name w) (i, g)) in H2
          as (? & _ & _ & ?).
    - unfold ret in Hm. inversion Hm; subst. apply only_touches_refl. }
  apply bind_inv in H as [(modified & W1 & Hm & H)|(e & Hm & ->)]; [|by eapply Hloop].
  apply Hloop in Hm.
  destruct (negb modified && _show_warnings W1).
  - unfold log_event, modify in H. inversion H; subst.
    eapply only_touches_trans; [exact Hm|].
    apply only_touches_event. by intros ? [= <-].
  - by inversion H; subst.
Qed.

Lemma blockSignals_touches widget b W (r : Res unit) W' :
  blockSignals widget b W = (r, W') → only_touches (λ j, j = widget) W W'.
Proof.
  intros H. unfold blockSignals in H.
  apply bind_inv in H as [(w & W1 & Hw & H)|(e & Hw & ->)];
    apply get_widget_inv in Hw as [-> Hw]; [|apply only_touches_refl].
  unfold put_widget, modify in H. inversion H; subst. apply only_touches_put.
Qed.

Lemma refresh_loops_touch (l : list nat) W (r : Res unit) W' :
  _block_save W = true →
  (for_each l update_widget ;;
   for_each l (λ widget, blockSignals widget false)) W = (r, W') →
  only_touches (λ j, j ∈ l) W W'.
Proof.
  intros Hb H.
  assert (∀ W0 r0 W0', _block_save W0 = true → for_each l update_widget W0 = (r0, W0') →
            only_touches (λ j, j ∈ l) W0 W0') as H1.
  { intros W0 r0 W0' Hb0 H0.
    eapply (for_each_touches _ _ _ (λ W, _block_save W = true)); [|exact Hb0|exact H0].
    intros x Wx rx Wx' Hx Hbx Hux. split.
    - eapply only_touches_mono; [|by eapply update_widget_touches]. by intros ? ->.
    - by apply update_widget_blocked in Hux as (? & _ & _ & ?). }
  apply bind_inv in H as [([] & W1 & Hu & Hs)|(e & Hu & ->)]; [|by eapply H1].
  eapply only_touches_trans; [by eapply H1|].
  eapply (for_each_touches _ _ _ (λ W, True)); [|done|exact Hs].
  intros x Wx rx Wx' Hx _ Hbx. split; [|done].
  apply blockSignals_touches in Hbx.
  eapply only_touches_mono; [|exact Hbx]. by intros ? ->.
Qed.

Lemma update_widget_from_property_split n W (r : Res unit) W' :
  update_widget_from_property n W = (r, W') →
  ∃ r1 W1,
    (for_each (widgets_linked_to_property n W) update_widget ;;
     for_each (widgets_linked_to_property n W) (λ widget, blockSignals widget false))
      (set_block_save true W) = (r1, W1) ∧
    ((r1 = Ok tt ∧ r = Ok tt ∧ W' = set_block_save false W1) ∨
     (∃ e, r1 = Raise e ∧ r = Raise e ∧ W' = W1)).
Proof.
  unfold update_widget_from_property, modify. unfold bind at 1. intros H.
  change (widgets_linked_to_property n (set_block_save true W))
    with (widgets_linked_to_property n W) in H.
  apply bind_inv in H as [([] & W2 & H1 & H2)|(e & H1 & ->)].
  - apply bind_inv in H2 as [([] & W3 & H2 & H3)|(e & H2 & ->)].
    + inversion H3; subst. exists (Ok tt), W3. split; [|by left].
      unfold bind. by rewrite H1.
    + exists (Raise e), W'. split; [|right; eauto].
      unfold bind. by rewrite H1.
  - exists (Raise e), W'. split; [|right; eauto]. unfold bind. by rewrite H1.
Qed.

Lemma update_widget_from_property_frame n W (r : Res unit) W' :
  update_widget_from_property n W = (r, W') →
  (∀ j, j ∉ widgets_linked_to_property n W → heap W' !! j = heap W !! j) ∧
  _properties W' = _properties W ∧ _listeners W' = _listeners W ∧
  _widgets W' = _widgets W ∧
  ∃ evs, trace W' = trace W ++ evs ∧ no_listener_called evs ∧
         ∀ e i, e ∈ evs → event_widget e = Some i →
                i ∈ widgets_linked_to_property n W.
Proof.
  intros H. apply update_widget_from_property_split in H as (r1 & W1 & Hrun & Hend).
  pose proof (refresh_loops_touch _ (set_block_save true W) _ _ eq_refl Hrun)
    as [Hh (e' & Ht & He)].
  apply refresh_loops_blocked in Hrun as (evs & S & N); [|done].
  assert (e' = evs) as ->.
  { pose proof (steady_trace _ _ _ S) as Ht'. rewrite Ht in Ht'.
    by apply app_inv_head in Ht'. }
  assert (heap W' = heap W1 ∧ _properties W' = _properties W1 ∧
          _listeners W' = _listeners W1 ∧ _widgets W' = _widgets W1 ∧
          trace W' = trace W1) as (-> & -> & -> & -> & ->)
    by (destruct Hend as [(_ & _ & ->)|(e & _ & _ & ->)]; done).
  split; [exact Hh|].
  split; [apply (steady_properties _ _ _ S)|].
  split; [apply (steady_listeners _ _ _ S)|].
  split; [apply (steady_widgets _ _ _ S)|].
  exists evs. split; [exact Ht|]. split; [done|].
  intros e i Hin Hev. rewrite Forall_forall in He. by eapply He.
Qed.

(** X8.  [update_widget_from_property] touches nothing but the widgets
    linked to that name: every other widget is as it was, every setter call
    and every warning it causes is about a widget linked to the name, no
    listener is called, and the properties, the listeners and the registry
    are as they were, however the call ends. *)
Theorem update_widget_from_property_touches_linked_only n W (r : Res unit) W' :
  update_widget_from_property n W = (r, W') →
  (∀ j, j ∉ widgets_linked_to_property n W → heap W' !! j = heap W !! j) ∧
  _properties W' = _properties W ∧ _listeners W' = _listeners W ∧
  _widgets W' = _widgets W ∧
  ∃ evs, trace W' = trace W ++ evs ∧ no_listener_called evs ∧
         ∀ e i, e ∈ evs → event_widget e = Some i →
                i ∈ widgets_linked_to_property n W.
Proof. apply update_widget_from_property_frame. Qed.

End Touched.

(** ** More on [update_property], [save_properties] and [widget_values] *)

Section Saving.
Context `{TK : Toolkit}.
Implicit Types (W : World) (evs : list Event).

Notation "'let*' x ':=' c 'in' k" := (bind c (λ x, k))
  (at level 10, x name, c at level 100, k at level 200).
Notation "c ;; k" := (bind c (λ _, k))
  (at level 100, k at level 200, right associativity).

Lemma update_property_frame p v q W (r : Res unit) W' :
  _properties W !! p = Some q →
  update_property p v W = (r, W') →
  _properties W' = <[p := set_value v q]> (_properties W) ∧
  _listeners W' = _listeners W ∧ _widgets W' = _widgets W ∧
  (∀ j, j ∉ widgets_linked_to_property p W → heap W' !! j = heap W !! j) ∧
  (r = Ok tt → _block_save W' = false).
Proof.
  intros Hq H. unfold update_property in H. rewrite Hq in H.
  unfold modify in H. unfold bind at 1 in H.
  set (Wp := set_properties (<[p := set_value v q]> (_properties W)) W) in H.
  apply bind_inv in H as [([] & W2 & H1 & H2)|(e & H1 & ->)].
  - pose proof (update_widget_from_property_resets_on_return _ _ _ H1) as Hb.
    apply update_widget_from_property_frame in H1 as (Hh & Hp & Hl & Hw & _).
    rewrite call_listeners_run in H2.
    assert (W' = foldl (λ W l, add_event (Called l v) W) W2
                   (called_listeners (listeners_get (Some p) W2) v))
      as -> by congruence.
    destruct (add_events_fields (called_listeners (listeners_get (Some p) W2) v) v W2)
      as (-> & -> & -> & -> & _ & -> & _).
    rewrite Hp, Hl, Hw. repeat split; try done.
  - apply update_widget_from_property_frame in H1 as (Hh & Hp & Hl & Hw & _).
    rewrite Hp, Hl, Hw. repeat split; try done.
Qed.

(** X9.  [update_property] on a registered name changes one thing in the
    registry, the value of that record: its other fields and every other
    record are as they were, however the call ends, with a setter or a
    listener that raises or without; so are the listeners, the list of
    tracked widgets and every widget that is not linked to the name; and when
    the call returns the guard is down. *)
Theorem update_property_changes_one_value p v q W (r : Res unit) W' :
  _properties W !! p = Some q →
  update_property p v W = (r, W') →
  _properties W' = <[p := set_value v q]> (_properties W) ∧
  _listeners W' = _listeners W ∧ _widgets W' = _widgets W ∧
  (∀ j, j ∉ widgets_linked_to_property p W → heap W' !! j = heap W !! j) ∧
  (r = Ok tt → _block_save W' = false).
Proof. apply update_property_frame. Qed.

(** X10.  When the setters of the toolkit accept what they are given and
    every listener registered for the name returns on the value,
    [update_property] on a registered name does not raise: it returns, with
    the guard down and the value stored. *)
Theorem update_property_returns_when_setters_and_listeners_return p v W :
  (∀ t st s x, ∃ st' emitted, call_setter t st s x = Ok (st', emitted)) →
  Forall (λ l, listener_result l v = Ok tt) (listeners_get (Some p) W) →
  is_Some (_properties W !! p) →
  ∃ W', update_property p v W = (Ok tt, W') ∧ _block_save W' = false ∧
        value <$> (_properties W' !! p) = Some v.
Proof.
  intros Htotal Hls [q Hq].
  destruct (update_property_returns p v W Htotal Hls) as [W' H]; [eauto|].
  exists W'. split; [done|].
  destruct (update_property_frame _ _ _ _ _ _ Hq H) as (-> & _ & _ & _ & Hb).
  split; [by apply Hb|]. by rewrite lookup_insert_eq.
Qed.

(** X19.  A listener that raises is not caught: when the setters of the
    toolkit accept what they are given, and among the listeners of a
    registered name, in the order of registration, [l] is the first that
    raises on the value, [update_property] raises the exception of [l]; by
    then the value is stored and the guard is down again, and after the
    events of the refresh the listeners before [l] and [l] itself were
    called, once each and in order, and those after [l] were not. *)
Theorem update_property_propagates_listener_exception p v q W pre l post e :
  (∀ t st s x, ∃ st' emitted, call_setter t st s x = Ok (st', emitted)) →
  _properties W !! p = Some q →
  listeners_get (Some p) W = pre ++ l :: post →
  Forall (λ l, listener_result l v = Ok tt) pre →
  listener_result l v = Raise e →
  ∃ W' evs,
    update_property p v W = (Raise e, W') ∧
    _properties W' = <[p := set_value v q]> (_properties W) ∧
    _block_save W' = false ∧
    no_listener_called evs ∧
    trace W' = trace W ++ evs ++ map (λ l, Called l v) (pre ++ [l]).
Proof.
  intros Htotal Hq Hls Hpre Hl.
  destruct (update_property_run p v q W Htotal Hq) as (W1 & evs & S & N & H).
  rewrite Hls in H.
  destruct (called_listeners_raise pre post l v e Hpre Hl) as [Ho Hc].
  rewrite Ho, Hc in H.
  eexists. exists evs. split; [exact H|].
  destruct (add_events_fields (pre ++ [l]) v (set_block_save false W1))
    as (_ & _ & -> & _ & _ & -> & ->).
  simpl. rewrite (steady_properties _ _ _ S), (steady_trace _ _ _ S). simpl.
  split; [done|]. split; [done|]. split; [done|]. by rewrite app_assoc.
Qed.

(** X11.  After [update_property(p, v)], [reset_properties] without widget
    refresh brings the value of [p] back to the default it had before the
    update, and leaves that default in place. *)
Theorem update_then_reset_restores_default p v q W (r1 r2 : Res unit) W1 W2 :
  _properties W !! p = Some q →
  update_property p v W = (r1, W1) →
  reset_properties false W1 = (r2, W2) →
  (value <$> (_properties W1 !! p) = Some v) ∧
  (value <$> (_properties W2 !! p) = Some (default q)) ∧
  (default <$> (_properties W2 !! p) = Some (default q)).
Proof.
  intros Hq H1 H2.
  destruct (update_property_frame _ _ _ _ _ _ Hq H1) as (Hp1 & _).
  apply reset_properties_inv in H2 as (Hp2 & _).
  rewrite Hp2, Hp1, lookup_insert_eq. done.
Qed.

(** *** [save_properties] reads the widgets and writes the registry *)

Lemma save_events_no_setter W i :
  Forall (λ e, is_SetterCall e = false) (save_events W i).
Proof.
  unfold save_events. destruct (heap W !! i) as [w|]; [|constructor].
  destruct (SUPPORT_WIDGET_TYPES (wtype w)) as [info|].
  - destruct (read_facets w info) as [fs|]; [|constructor].
    destruct (dict_get "value" fs); [|constructor].
    apply Forall_forall. intros e He. apply list_elem_of_fmap in He as (l & -> & _). done.
  - destruct (_show_warnings W); by repeat constructor.
Qed.

Lemma save_record_names W i n :
  is_Some (save_record W i !! n) ↔ is_Some (_properties W !! n).
Proof.
  split.
  - intros Hs. destruct (_properties W !! n) eqn:Hn; [eauto|].
    rewrite (save_record_unregistered _ _ _ Hn) in Hs. by destruct Hs.
  - apply save_record_registered.
Qed.

Lemma called_events_no_setter (ls : list Listener) (v : Value) :
  Forall (λ e, is_SetterCall e = false) (map (λ l, Called l v) ls).
Proof. apply Forall_forall. intros e He. by apply list_elem_of_fmap in He as (l & -> & _). Qed.

(** The turn of one widget in [save_properties], however it ends, with a
    getter or a listener that raises or without: some records are assigned
    to, some events that are no calls of a setter are added, and that is
    all. *)
Lemma save_widget_shape widget W (r : Res unit) W' :
  save_widget widget W = (r, W') →
  ∃ ps evs, W' = add_events evs (set_properties ps W) ∧
            (∀ n, is_Some (ps !! n) ↔ is_Some (_properties W !! n)) ∧
            Forall (λ e, is_SetterCall e = false) evs.
Proof.
  intros H.
  assert (∃ ps evs, W = add_events evs (set_properties ps W) ∧
            (∀ n, is_Some (ps !! n) ↔ is_Some (_properties W !! n)) ∧
            Forall (λ e, is_SetterCall e = false) evs) as Hrefl.
  { exists (_properties W), []. rewrite set_properties_id, add_events_nil.
    split; [done|]. split; [done|constructor]. }
  destruct r as [[]|e].
  { apply save_widget_ok in H. subst W'.
    exists (save_record W widget), (save_events W widget). split; [done|].
    split; [intros n; apply save_record_names|apply save_events_no_setter]. }
  unfold save_widget in H.
  apply bind_inv in H as [(w & W1 & Hw & H)|(e0 & Hw & _)];
    apply get_widget_inv in Hw as [-> Hw]; [|done].
  destruct Hw as [(w0 & Hw & [= <-])|[_ ?]]; [|done].
  destruct (SUPPORT_WIDGET_TYPES (wtype w)) as [info|] eqn:Hinfo.
  - unfold bind at 1 in H.
    rewrite (widget_values_supported _ _ _ _ Hw Hinfo) in H.
    destruct (read_facets w info) as [fs|e1] eqn:Hf.
    2:{ by inversion H; subst. }
    unfold widget_property_name in H.
    apply bind_inv in H as [([] & W1 & Hset & H)|(e0 & Hset & _)].
    + rewrite listeners_loop in H by by eapply read_facets_NoDup.
      set (evs := match dict_get "value" fs with
                  | Some v => map (λ l, Called l v)
                                (called_listeners (listeners_get (prop w) W1) v)
                  | None => []
                  end) in H.
      assert (Forall (λ e, is_SetterCall e = false) evs) as Hevs.
      { unfold evs. destruct (dict_get "value" fs);
          [apply called_events_no_setter|constructor]. }
      assert (W' = add_events evs W1) as -> by congruence. clear H.
      destruct (prop w) as [n|] eqn:Hn.
      * destruct (_properties W !! n) as [p|] eqn:Hp.
        -- rewrite (setattr_loop_registered _ _ _ _ Hp) in Hset.
           assert (W1 = set_properties (<[n:=setattr_all p fs]> (_properties W)) W)
             as -> by congruence.
           eexists _, evs. split; [done|]. split; [|done].
           intros n'. destruct (decide (n = n')) as [<-|Hne].
           ++ rewrite lookup_insert_eq, Hp. split; eauto.
           ++ by rewrite lookup_insert_ne.
        -- destruct fs as [|kv fs].
           ++ simpl in Hset. assert (W1 = W) as -> by (unfold ret in Hset; congruence).
              exists (_properties W), evs. rewrite set_properties_id. done.
           ++ rewrite setattr_loop_unregistered in Hset; [done|done|].
              by intros n' [= <-].
      * destruct fs as [|kv fs].
        -- simpl in Hset. assert (W1 = W) as -> by (unfold ret in Hset; congruence).
           exists (_properties W), evs. rewrite set_properties_id. done.
        -- rewrite setattr_loop_unregistered in Hset; [done|done|done].
    + destruct (prop w) as [n|] eqn:Hn.
      * destruct (_properties W !! n) as [p|] eqn:Hp.
        -- by rewrite (setattr_loop_registered _ _ _ _ Hp) in Hset.
        -- destruct fs as [|kv fs]; [done|].
           rewrite setattr_loop_unregistered in Hset; [by inversion Hset; subst|done|].
           by intros n' [= <-].
      * destruct fs as [|kv fs]; [done|].
        rewrite setattr_loop_unregistered in Hset; [by inversion Hset; subst|done|done].
  - assert (save_widget widget W = (Raise e, W')) as H'
      by (unfold save_widget, bind at 1, get_widget; by rewrite Hw).
    by rewrite (save_widget_unsupported _ _ _ Hw Hinfo) in H'.
Qed.

Lemma save_loop_frame (l : list nat) W (r : Res unit) W' :
  for_each l save_widget W = (r, W') →
  heap W' = heap W ∧ _widgets W' = _widgets W ∧ _listeners W' = _listeners W ∧
  _show_warnings W' = _show_warnings W ∧ _block_save W' = _block_save W ∧
  (∀ n, is_Some (_properties W' !! n) ↔ is_Some (_properties W !! n)) ∧
  ∃ evs, trace W' = trace W ++ evs ∧ Forall (λ e, is_SetterCall e = false) evs.
Proof.
  revert W. induction l as [|x l IH]; intros W H; simpl in H.
  - inversion H; subst. repeat split; try done; try tauto.
    exists []. split; [by rewrite app_nil_r|constructor].
  - apply bind_inv in H as [([] & W1 & Hx & Hl)|(e & Hx & ->)].
    + apply save_widget_shape in Hx as (ps & e1 & -> & Hps & He1).
      destruct (IH _ Hl) as (-> & -> & -> & -> & -> & Hn & evs & -> & He).
      simpl. repeat split; try done.
      * intros Hs. apply Hn in Hs. simpl in Hs. by apply Hps in Hs.
      * intros Hs. apply Hn. simpl. by apply Hps.
      * exists (e1 ++ evs). split; [by rewrite app_assoc|by apply Forall_app].
    + apply save_widget_shape in Hx as (ps & e1 & -> & Hps & He1).
      simpl. repeat split; try done; try apply Hps. eauto.
Qed.

(** X12.  However it ends, with a getter or a listener that raises or
    without, [save_properties] leaves the widgets, the registry of widgets,
    the listeners and both flags as they were, calls no setter, and neither
    adds a property nor removes one: it can only assign to the records that
    are there. *)
Theorem save_properties_writes_records_only W (r : Res unit) W' :
  save_properties W = (r, W') →
  heap W' = heap W ∧ _widgets W' = _widgets W ∧ _listeners W' = _listeners W ∧
  _show_warnings W' = _show_warnings W ∧ _block_save W' = _block_save W ∧
  (∀ n, is_Some (_properties W' !! n) ↔ is_Some (_properties W !! n)) ∧
  ∃ evs, trace W' = trace W ++ evs ∧ Forall (λ e, is_SetterCall e = false) evs.
Proof.
  unfold save_properties. destruct (_block_save W) eqn:Hb.
  - intros [= <- <-]. repeat split; try done; try tauto.
    exists []. split; [by rewrite app_nil_r|constructor].
  - intros H. apply save_loop_frame in H. by rewrite Hb in H.
Qed.


(** X18.  A setter that raises is not swallowed: for a widget of a class of
    the table whose tag is a property, when the setter of the class raises
    on the value of the property, [update_widget] raises the same kind of
    exception, guard or no guard, and has changed nothing: the widget and
    the properties are as they were, and only the call of the setter is on
    record. *)
Theorem update_widget_propagates_setter_exception widget w info g n q e W :
  heap W !! widget = Some w →
  SUPPORT_WIDGET_TYPES (wtype w) = Some info → getsets info = [g] →
  prop w = Some n → _properties W !! n = Some q →
  call_setter (wtype w) (wstate w) (setter g) (value q) = Raise e →
  update_widget widget W
  = (Raise e, add_event (SetterCall widget (setter g) (value q)) W).
Proof.
  intros Hw Hinfo Hg Hn Hq Hset. unfold update_widget. unfold bind at 1.
  unfold get_widget at 1. rewrite Hw, Hinfo, Hg. unfold enumerate. simpl.
  unfold bind at 1. unfold bind at 1. unfold bind at 1.
  unfold properties_getitem, widget_property_name. rewrite Hn, Hq.
  change (getattr q "value") with (Some (value q)). unfold ret at 1.
  unfold bind at 1. unfold bind at 1. unfold get_widget. rewrite Hw.
  unfold bind at 1. unfold call_widget_setter. unfold bind at 1.
  unfold log_event, modify. rewrite Hset. by destruct e.
Qed.

End Saving.

(** ** The facets of a widget *)

Section Facets.
Context `{TK : Toolkit}.
Implicit Types (W : World).

Lemma dict_get_set_eq {V} (k : string) (v : V) (d : list (string * V)) :
  dict_get k (dict_set k v d) = Some v.
Proof.
  induction d as [|[k0 v0] d IH]; simpl.
  - by rewrite decide_True.
  - destruct (decide (k0 = k)) as [->|Hne]; simpl.
    + by rewrite decide_True.
    + by rewrite decide_False.
Qed.

Lemma dict_get_set_ne {V} (k k' : string) (v : V) (d : list (string * V)) :
  k' ≠ k → dict_get k' (dict_set k v d) = dict_get k' d.
Proof.
  intros Hne. induction d as [|[k0 v0] d IH]; simpl.
  - by rewrite decide_False.
  - destruct (decide (k0 = k)) as [->|Hne0]; simpl.
    + by rewrite !decide_False.
    + destruct (decide (k0 = k')); [done|apply IH].
Qed.

Lemma dict_get_absent {V} (k : string) (d : list (string * V)) :
  k ∉ d.*1 → dict_get k d = None.
Proof.
  induction d as [|[k0 v0] d IH]; simpl; [done|].
  intros Hnin. apply not_elem_of_cons in Hnin as [Hne Hnin].
  rewrite decide_False by done. by apply IH.
Qed.

Lemma extra_properties_of_NoDup (w : Widget) : NoDup (extra_properties_of w).*1.
Proof.
  unfold extra_properties_of. destruct (extraProperties w) as [d|]; [|constructor].
  assert (∀ acc : list (string * string), NoDup acc.*1 →
            NoDup (foldl (λ acc '(k, v), dict_set k v acc) acc d).*1) as H.
  { induction d as [|[k a] d IH]; intros acc Hacc; [done|].
    simpl. apply IH. by apply dict_set_NoDup. }
  apply H. constructor.
Qed.

(** What the second loop of [widget_values] leaves under each key. *)
Lemma read_extras_get (w : Widget) (d : list (string * string))
    (result facets : list (string * Value)) :
  NoDup d.*1 →
  fold_res d result (λ result '(k, v), read_into w k v result) = Ok facets →
  ∀ k,
    match dict_get k d with
    | Some accessor =>
        ∃ v, call_getter (wtype w) (wstate w) accessor = Ok v ∧
             dict_get k facets = Some v
    | None => dict_get k facets = dict_get k result
    end.
Proof.
  revert result. induction d as [|[k0 a0] d IH]; intros result Hnd H k; simpl in *.
  - by inversion H.
  - inversion Hnd as [|? ? Hnin Hnd']; subst.
    unfold read_into at 1 in H.
    destruct (call_getter (wtype w) (wstate w) a0) as [v0|e] eqn:Hg; [|done].
    pose proof (IH _ Hnd' H) as Hall.
    destruct (decide (k0 = k)) as [->|Hne].
    + exists v0. split; [done|].
      specialize (Hall k). rewrite (dict_get_absent _ _ Hnin) in Hall.
      rewrite Hall. apply dict_get_set_eq.
    + specialize (Hall k). destruct (dict_get k d); [done|].
      rewrite Hall. apply dict_get_set_ne. congruence.
Qed.

(** X14.  What [widget_values] returns.  For a widget of a class that is not
    in the table, the empty dictionary, with no exception and no change but
    the warning (if warnings are on).  For a widget of a class of the table
    the call changes nothing, and when it returns: under every key of the
    widget's ["extraProperties"] is what the accessor named there returns,
    also under ["value"], where it replaces what the getter of the table
    gave; under ["value"], when ["extraProperties"] has no such key, is
    what the getter of the table returns; and there is no other key. *)
Theorem widget_values_facets widget w W (r : Res (list (string * Value))) W' :
  heap W !! widget = Some w →
  widget_values widget W = (r, W') →
  match SUPPORT_WIDGET_TYPES (wtype w) with
  | None =>
      r = Ok [] ∧
      W' = (if _show_warnings W then add_event (Warned widget (prop w)) W else W)
  | Some info =>
      W' = W ∧
      ∀ facets, r = Ok facets →
        ∀ k,
          match dict_get k (extra_properties_of w) with
          | Some accessor =>
              ∃ v, call_getter (wtype w) (wstate w) accessor = Ok v ∧
                   dict_get k facets = Some v
          | None =>
              if decide (k = "value")
              then ∃ g v, getsets info = [g] ∧
                          call_getter (wtype w) (wstate w) (getter g) = Ok v ∧
                          dict_get k facets = Some v
              else dict_get k facets = None
          end
  end.
Proof.
  intros Hw H. destruct (SUPPORT_WIDGET_TYPES (wtype w)) as [info|] eqn:Hinfo.
  - rewrite (widget_values_supported _ _ _ _ Hw Hinfo) in H.
    inversion H as [[Hr0 HW]]. split; [done|].
    intros facets Hr. unfold read_facets in Hr.
    destruct (table_one_pair _ _ Hinfo) as [g Hg]. rewrite Hg in Hr.
    unfold enumerate in Hr. simpl in Hr. unfold read_into at 1 in Hr.
    destruct (call_getter (wtype w) (wstate w) (getter g)) as [v0|e] eqn:Hg0; [|done].
    simpl in Hr. intros k.
    pose proof (read_extras_get w _ _ _ (extra_properties_of_NoDup w) Hr k) as Hk.
    destruct (dict_get k (extra_properties_of w)); [done|].
    rewrite Hk. simpl. destruct (decide (k = "value")) as [->|Hne].
    + exists g, v0. by rewrite decide_True.
    + by rewrite decide_False.
  - rewrite (widget_values_unsupported _ _ _ Hw Hinfo) in H. by inversion H.
Qed.

End Facets.

(** ** More on discovery *)

Section Walk.

Lemma flat_map_Permutation {A B} (f g : A → list B) (l : list A) :
  Forall (λ x, f x ≡ₚ g x) l → flat_map f l ≡ₚ flat_map g l.
Proof.
  induction 1 as [|x l Hx Hl IH]; simpl; [done|]. by rewrite Hx, IH.
Qed.

Lemma flat_map_app_Permutation {A B} (f g : A → list B) (l : list A) :
  flat_map (λ x, f x ++ g x) l ≡ₚ flat_map f l ++ flat_map g l.
Proof.
  induction l as [|x l IH]; simpl; [done|]. rewrite IH.
  rewrite <- !app_assoc. apply Permutation_app_head.
  rewrite !app_assoc. apply Permutation_app_tail. apply Permutation_app_comm.
Qed.

Lemma iterate_linkable_properties_Permutation (widget : QObject) :
  iterate_linkable_properties widget
  ≡ₚ each_object_once widget ++ flat_map each_object_once (children widget).
Proof.
  induction widget as [d cs IH] using QObject_tree_ind.
  rewrite iterate_linkable_properties_unfold. simpl.
  rewrite <- app_assoc. apply Permutation_app_head.
  rewrite <- flat_map_app_Permutation. apply flat_map_Permutation.
  eapply Forall_impl; [exact IH|]. intros [dc ccs] Hc. simpl in *.
  rewrite Hc. simpl. solve_Permutation.
Qed.

(** A single walk, spelled out on the objects of the tree: for each object in
    turn, the entries of its [__dict__] whose class is a key of the table. *)
Lemma each_object_once_objects (widget : QObject) :
  each_object_once widget
  = flat_map (λ o, filter (λ a, is_Some (SUPPORT_WIDGET_TYPES (obj_type a.2)))
                     (__dict__ o))
      (objects widget).
Proof.
  induction widget as [d cs IH] using QObject_tree_ind. simpl. f_equal.
  - unfold linkable_attributes. apply list_filter_iff. intros [k o]. simpl.
    unfold supported. destruct (SUPPORT_WIDGET_TYPES (obj_type o)).
    + split; eauto.
    + split; [done|]. by intros [? ?].
  - induction IH as [|c cs Hc _ IHcs]; simpl; [done|].
    by rewrite flat_map_app, Hc, IHcs.
Qed.

(** X15.  The walk yields the linkable attributes of the object it is called
    on once and those of every object below it twice: what it yields is, up
    to order, one walk over the whole tree followed by one walk over each
    child's tree, where a walk over a tree takes its objects in turn and of
    each the entries of [__dict__] whose class is a key of the table. *)
Theorem iterate_linkable_properties_yields_descendants_twice (widget : QObject) :
  iterate_linkable_properties widget
  ≡ₚ each_object_once widget ++ flat_map each_object_once (children widget)
  ∧ ∀ tree, each_object_once tree
            = flat_map (λ o, filter (λ a, is_Some (SUPPORT_WIDGET_TYPES (obj_type a.2)))
                               (__dict__ o))
                (objects tree).
Proof.
  split; [apply iterate_linkable_properties_Permutation|apply each_object_once_objects].
Qed.

Lemma each_object_once_children (widget : QObject) a :
  a ∈ flat_map each_object_once (children widget) → a ∈ each_object_once widget.
Proof. destruct widget as [d cs]. simpl. intros Ha. apply elem_of_app. by right. Qed.

(** X16.  The walk misses nothing and invents nothing: a pair of a name and
    an object is yielded exactly when it is an entry of the [__dict__] of
    some object of the tree, the root or any object below it, and the class
    of the object is a key of the table. *)
Theorem iterate_linkable_properties_complete (widget : QObject)
    (attr : string) (obj : Obj) :
  (attr, obj) ∈ iterate_linkable_properties widget ↔
  ∃ o, o ∈ objects widget ∧ (attr, obj) ∈ __dict__ o ∧
       is_Some (SUPPORT_WIDGET_TYPES (obj_type obj)).
Proof.
  rewrite iterate_linkable_properties_Permutation, elem_of_app.
  assert ((attr, obj) ∈ each_object_once widget ↔
          ∃ o, o ∈ objects widget ∧ (attr, obj) ∈ __dict__ o ∧
               is_Some (SUPPORT_WIDGET_TYPES (obj_type obj))) as <-.
  { rewrite each_object_once_objects, list_elem_of_In, in_flat_map.
    split.
    - intros (o & Ho & Ha). apply list_elem_of_In in Ho, Ha.
      apply list_elem_of_filter in Ha as [Hs Ha]. eauto.
    - intros (o & Ho & Ha & Hs). exists o. rewrite <- !list_elem_of_In.
      split; [done|]. by apply list_elem_of_filter. }
  split; [|by left]. intros [Ha|Ha]; [done|by apply each_object_once_children].
Qed.

End Walk.

(** ** More on [setup_properties] *)

Section Keys.

Lemma named_nil (k : string) (ps : list UiProperty) :
  k ∉ name <$> ps → named k ps = [].
Proof.
  unfold named. induction ps as [|x ps IH]; intros Hnin; [done|].
  simpl in Hnin. apply not_elem_of_cons in Hnin as [Hne Hnin].
  rewrite filter_cons_False by congruence. by apply IH.
Qed.

Lemma named_single (p : UiProperty) (ps : list UiProperty) :
  NoDup (name <$> ps) → p ∈ ps → named (name p) ps = [p].
Proof.
  unfold named. induction ps as [|x ps IH]; intros Hnd Hin; [by apply elem_of_nil in Hin|].
  simpl in Hnd. inversion Hnd as [|? ? Hnin Hnd']; subst.
  apply elem_of_cons in Hin as [->|Hin].
  - rewrite filter_cons_True by done. f_equal. by apply named_nil.
  - rewrite filter_cons_False; [by apply IH|].
    intros Heq. apply Hnin. rewrite Heq. apply list_elem_of_fmap. eauto.
Qed.

Lemma setup_fold_size (ps : list UiProperty) (m : gmap string UiProperty) :
  NoDup (name <$> ps) → (∀ p, p ∈ ps → m !! name p = None) →
  size (foldl setup_step m ps) = size m + length ps.
Proof.
  revert m. induction ps as [|x ps IH]; intros m Hnd Hfresh; simpl; [lia|].
  simpl in Hnd. inversion Hnd as [|? ? Hnin Hnd']; subst.
  rewrite IH; [| done |].
  - unfold setup_step. rewrite map_size_insert_None; [lia|]. apply Hfresh. by left.
  - intros p Hp. unfold setup_step. rewrite lookup_insert_ne.
    + apply Hfresh. by right.
    + intros Heq. apply Hnin. rewrite Heq. apply list_elem_of_fmap. eauto.
Qed.

(** X17.  The keys of the mapping that [setup_properties] returns are the
    names of the records it was given, no more and no fewer; and when the
    names are distinct no record is lost: the mapping has as many entries as
    the list has records, and each record is found under its name. *)
Theorem setup_properties_keys (hook : list UiProperty)
    (properties : option (list UiProperty)) :
  (∀ k, is_Some (setup_properties hook properties !! k)
        ↔ ∃ p, p ∈ properties_or hook properties ∧ name p = k) ∧
  (NoDup (name <$> properties_or hook properties) →
   size (setup_properties hook properties) = length (properties_or hook properties) ∧
   ∀ p, p ∈ properties_or hook properties →
        setup_properties hook properties !! name p = Some (fill_default p)).
Proof.
  unfold setup_properties. set (ps := properties_or hook properties). split.
  - intros k. rewrite setup_fold_lookup. rewrite lookup_empty.
    destruct (last (named k ps)) as [p|] eqn:Hl.
    + split; [intros _|eauto]. apply last_Some_elem_of in Hl.
      apply list_elem_of_filter in Hl as [Hn Hp]. eauto.
    + split; [by intros []|]. intros (p & Hp & Hn).
      apply last_None in Hl.
      assert (p ∈ named k ps) as Hin by (by apply list_elem_of_filter).
      rewrite Hl in Hin. by apply elem_of_nil in Hin.
  - intros Hnd. split.
    + rewrite setup_fold_size; [by rewrite map_size_empty|done|].
      intros p _. apply lookup_empty.
    + intros p Hp. rewrite setup_fold_lookup. by rewrite named_single.
Qed.

End Keys.

(** ** The model at work *)

#[local] Existing Instance demo_toolkit.

(** The listeners of ["volume"] in [Demo.W2] are the two that were
    registered, in the order of registration; registering the first one
    again adds it a second time. *)
Example listen_appends :
  listeners_get (Some "volume") Demo.W2 = [10; 11]%nat ∧
  listeners_get (Some "volume") (listen "volume" 10%nat Demo.W2).2 = [10; 11; 10]%nat.
Proof. split; vm_compute; reflexivity. Qed.

(** C1, where the code departs from it.  The property ["volume"] holds
    [None] and a progress bar is linked to it; the setter refuses [None].
    [update_widget_from_property] lets the [TypeError] out with the guard
    still up, and [save_properties] is from then on without effect;
    [update_widgets_from_properties], with its [finally], ends on the same
    exception with the guard down. *)
Theorem update_widget_from_property_leaves_guard_up :
  (update_widget_from_property "volume" Demo.Wbad).1 = Raise TypeError ∧
  _block_save (update_widget_from_property "volume" Demo.Wbad).2 = true ∧
  (update_widgets_from_properties Demo.Wbad).1 = Raise TypeError ∧
  _block_save (update_widgets_from_properties Demo.Wbad).2 = false.
Proof. repeat split; vm_compute; reflexivity. Qed.

(** C2, where the code departs from it.  With warnings off, a push button,
    whose class is not in the table, is linked: [link_property] returns
    [True], the button carries the tag, it is in the registry, and
    [widgets_linked_to_property] returns it. *)
Theorem link_property_links_unsupported_when_quiet :
  SUPPORT_WIDGET_TYPES (OtherType "QPushButton") = None ∧
  (link_property 2 "volume" Demo.Wquiet).1 = Ok true ∧
  prop <$> (heap (link_property 2 "volume" Demo.Wquiet).2 !! 2%nat) = Some (Some "volume") ∧
  _widgets (link_property 2 "volume" Demo.Wquiet).2 = [2%nat] ∧
  widgets_linked_to_property "volume" (link_property 2 "volume" Demo.Wquiet).2 = [2%nat].
Proof. repeat split; vm_compute; reflexivity. Qed.

(** With warnings on the same button is refused and left as it was. *)
Example link_property_refuses_unsupported_when_warning :
  link_property 2 "volume" Demo.W0
  = (Ok false, add_event (Warned 2 (Some "volume")) Demo.W0).
Proof.
  apply (link_property_unsupported_warned 2 (Demo.fresh (OtherType "QPushButton") VNone));
    try (vm_compute; reflexivity).
  vm_compute. apply not_elem_of_nil.
Qed.

(** C3 as stated fails: a progress bar is tracked under the tag ["gone"],
    which is not a property; [update_widget] and [save_properties] raise
    [KeyError]. *)
Lemma stale_tag_raises :
  0%nat ∈ property_widgets Demo.Wstale ∧
  prop <$> (heap Demo.Wstale !! 0%nat) = Some (Some "gone") ∧
  _properties Demo.Wstale !! "gone" = None ∧
  update_widget 0 Demo.Wstale = (Raise KeyError, Demo.Wstale) ∧
  save_properties Demo.Wstale = (Raise KeyError, Demo.Wstale).
Proof.
  split; [vm_compute; apply list_elem_of_here|].
  repeat split; vm_compute; reflexivity.
Qed.

(** C3 as the code has it, on that same model: the progress bar is of a
    class of the table, so neither method skips it. *)
Lemma stale_tag_witness :
  update_widget 0 Demo.Wstale = (Raise KeyError, Demo.Wstale) ∧
  (∃ e, save_widget 0 Demo.Wstale = (Raise e, Demo.Wstale)) ∧
  (_block_save Demo.Wstale = false → ∃ e W', save_properties Demo.Wstale = (Raise e, W')).
Proof.
  apply (stale_tag_skipped_only_when_unsupported 0
           (Demo.linked QProgressBar "valueChanged" "gone" (VInt 3)) Demo.Wstale).
  - vm_compute. apply list_elem_of_here.
  - vm_compute. reflexivity.
  - intros n [= <-]. vm_compute. reflexivity.
Defined.

(** C4 on two linked progress bars whose setters emit [valueChanged], the
    signal that [link_property] connected to [save_properties]. *)
Lemma save_properties_noop_witness :
  (∀ W1, _block_save W1 = true → save_properties W1 = (Ok tt, W1)) ∧
  (∀ W1 w emitted, _block_save W1 = true → deliver w emitted W1 = (Ok tt, W1)) ∧
  _properties (update_widgets_from_properties Demo.W2).2 = _properties Demo.W2 ∧
  ∃ evs, trace (update_widgets_from_properties Demo.W2).2 = trace Demo.W2 ++ evs ∧
         no_listener_called evs.
Proof.
  apply (save_properties_noop_while_blocked Demo.W2
           (update_widgets_from_properties Demo.W2).1).
  vm_compute. reflexivity.
Defined.

(** Without the guard the same setter does write back: a direct call of
    [update_widget] makes the widget emit, [save_properties] runs, and the
    listeners are called. *)
Example update_widget_unguarded_saves :
  trace (update_widget 0 Demo.W2).2
  = [SetterCall 0 "setValue" (VInt 0);
     Called 10 (VInt 0); Called 11 (VInt 0); Called 10 (VInt 8); Called 11 (VInt 8)]%nat.
Proof. vm_compute. reflexivity. Qed.

(** C6 on the example of the specification, [update_property("volume", 7)],
    and on a name that is not registered. *)
Lemma update_property_round_trip_witness :
  value <$> (_properties (update_property "volume" (VInt 7) Demo.W2).2 !! "volume")
    = Some (VInt 7) ∧
  update_property "nothing" (VInt 7) Demo.W2 = (Ok tt, Demo.W2).
Proof.
  split.
  - apply (update_property_round_trip "volume" (VInt 7) Demo.W2
             (update_property "volume" (VInt 7) Demo.W2).1).
    vm_compute. reflexivity.
  - assert (update_property "nothing" (VInt 7) Demo.W2
            = ((update_property "nothing" (VInt 7) Demo.W2).1,
               (update_property "nothing" (VInt 7) Demo.W2).2)) as H
      by (vm_compute; reflexivity).
    apply update_property_round_trip in H. simpl in H. destruct H as [H1 H2].
    rewrite <- H2 at 2. rewrite <- H1. vm_compute. reflexivity.
Defined.

(** C7 on the example of the specification: the listeners registered first
    and second are called first and second, once each, with [5]. *)
Lemma listeners_called_in_registration_order_witness :
  (∃ W1, listen "volume" 10%nat Demo.W2 = (Ok tt, W1) ∧
         listeners_get (Some "volume") W1 = [10; 11; 10]%nat ∧
         (∀ q, q ≠ "volume" → listeners_get (Some q) W1 = listeners_get (Some q) Demo.W2) ∧
         W1 = set_listeners (_listeners W1) Demo.W2) ∧
  (∃ W1, listen "nothing" 12%nat Demo.W2 = (Ok tt, W1) ∧
         listeners_get (Some "nothing") W1 = [12]%nat ∧
         listeners_get (Some "volume") W1 = [10; 11]%nat) ∧
  ∃ evs, no_listener_called evs ∧
         trace (update_property "volume" (VInt 5) Demo.W2).2
         = trace Demo.W2 ++ evs ++ [Called 10 (VInt 5); Called 11 (VInt 5)]%nat.
Proof.
  destruct (listeners_called_in_registration_order "volume" 10%nat (VInt 5) Demo.W2)
    as [Hl Hu].
  destruct (listeners_called_in_registration_order "nothing" 12%nat (VInt 5) Demo.W2)
    as [(W1 & H1 & H2 & H3 & _) _].
  split; [exact Hl|]. split.
  - exists W1. split; [exact H1|]. split; [exact H2|].
    rewrite H3 by discriminate. vm_compute. reflexivity.
  - apply Hu.
    + vm_compute. eauto.
    + vm_compute. reflexivity.
Defined.

(** C9 where the record of ["volume"] already holds [0]: both progress bars
    are set to [0] and both listeners are called with [0]. *)
Lemma update_property_no_change_detection_witness :
  value <$> (_properties Demo.W2 !! "volume") = Some (VInt 0) ∧
  ∃ evs,
    trace (update_property "volume" (VInt 0) Demo.W2).2
    = trace Demo.W2 ++ evs ++ [Called 10 (VInt 0); Called 11 (VInt 0)]%nat ∧
    no_listener_called evs ∧
    SetterCall 0 "setValue" (VInt 0) ∈ evs ∧ SetterCall 1 "setValue" (VInt 0) ∈ evs.
Proof.
  split; [vm_compute; reflexivity|].
  destruct (update_property_no_change_detection "volume" (VInt 0)
              (UiProperty_new "volume" (VInt 0) (VInt 0) VNone) Demo.W2
              (update_property "volume" (VInt 0) Demo.W2).2)
    as (evs & Ht & Hn & Hall).
  - vm_compute. reflexivity.
  - vm_compute. reflexivity.
  - exists evs. split; [exact Ht|]. split; [exact Hn|]. split.
    + apply (Hall 0%nat (Demo.linked QProgressBar "valueChanged" "volume" (VInt 3))
               (WidgetUpdate "valueChanged" [mkGetSet "value" "setValue"])
               (mkGetSet "value" "setValue") []); try (vm_compute; reflexivity).
      vm_compute. apply list_elem_of_here.
    + apply (Hall 1%nat (Demo.linked QProgressBar "valueChanged" "volume" (VInt 8))
               (WidgetUpdate "valueChanged" [mkGetSet "value" "setValue"])
               (mkGetSet "value" "setValue") []); try (vm_compute; reflexivity).
      vm_compute. apply list_elem_of_further, list_elem_of_here.
Defined.

(** C10 on two progress bars linked to ["volume"], showing [3] and [8]: each
    listener is called for the first bar and then for the second, and the
    record ends with the [8] of the second. *)
Lemma save_properties_registry_order_witness :
  trace (save_properties Demo.W2).2
  = [Called 10 (VInt 3); Called 11 (VInt 3); Called 10 (VInt 8); Called 11 (VInt 8)]%nat ∧
  ∃ q, _properties (save_properties Demo.W2).2 !! "volume" = Some q ∧
       getattr q "value" = Some (VInt 8).
Proof.
  destruct (save_properties_registry_order Demo.W2 (save_properties Demo.W2).2
              "volume" [0%nat] 1%nat []
              (Demo.linked QProgressBar "valueChanged" "volume" (VInt 8))
              (WidgetUpdate "valueChanged" [mkGetSet "value" "setValue"])
              [("value", VInt 8)] "value" (VInt 8)) as (Ht & _ & Hq);
    try (vm_compute; reflexivity).
  - constructor.
  - split; [|exact Hq]. rewrite Ht. vm_compute. reflexivity.
Defined.

(** C8, where the code departs from it.  A window has one child, and the
    child holds a check box under the name ["enabled"]: the walk yields that
    attribute twice, once in the loop over the children and once more at the
    start of the call on the child; a walk that takes every object once
    yields it once. *)
Theorem iterate_linkable_properties_yields_child_twice :
  iterate_linkable_properties Demo.window
    = [("enabled", Demo.check_box); ("enabled", Demo.check_box)] ∧
  each_object_once Demo.window = [("enabled", Demo.check_box)].
Proof. split; vm_compute; reflexivity. Qed.

(** ** The further properties at work *)

(** X1 on the free progress bar of [Demo.W0]. *)
Lemma link_property_links_supported_witness :
  (link_property 0 "volume" Demo.W0).1 = Ok true ∧
  widgets_linked_to_property "volume" (link_property 0 "volume" Demo.W0).2 = [0%nat] ∧
  (link_property 0 "title" (link_property 0 "volume" Demo.W0).2).1 = Ok false.
Proof.
  destruct (link_property_links_supported 0 (Demo.fresh QProgressBar (VInt 3))
              (WidgetUpdate "valueChanged" [mkGetSet "value" "setValue"])
              "volume" Demo.W0) as (W' & H & _ & Hl & Hagain).
  - vm_compute. reflexivity.
  - vm_compute. apply not_elem_of_nil.
  - reflexivity.
  - reflexivity.
  - rewrite H. simpl. split; [reflexivity|]. split.
    + rewrite Hl. vm_compute. reflexivity.
    + by rewrite Hagain.
Defined.

(** X2 on the same call. *)
Lemma link_property_keeps_registry_sound_witness :
  NoDup (_widgets (link_property 0 "volume" Demo.W0).2) ∧
  tracked_are_tagged (link_property 0 "volume" Demo.W0).2.
Proof.
  apply (link_property_keeps_registry_sound 0 "volume" Demo.W0
           (link_property 0 "volume" Demo.W0).1).
  - vm_compute. constructor.
  - intros i Hi. vm_compute in Hi. by apply elem_of_nil in Hi.
  - vm_compute. reflexivity.
Defined.

(** X3 on a combo box: the table names [itemChanged], which [QComboBox] does
    not have. *)
Lemma link_property_missing_signal_witness :
  link_property (TK := accepting_toolkit) 0 "volume" Plain.W0
  = (Raise AttributeError, Plain.W0).
Proof.
  apply (link_property_missing_signal (TK := accepting_toolkit) 0 Plain.combo
           (WidgetUpdate "itemChanged" [mkGetSet "currentIndex" "setCurrentIndex"])).
  - vm_compute. reflexivity.
  - vm_compute. apply not_elem_of_nil.
  - reflexivity.
  - reflexivity.
Defined.

(** X4 on a progress bar and a line edit that had their signals blocked. *)
Lemma update_widgets_from_properties_refreshes_all_witness :
  _block_save (update_widgets_from_properties Demo2.Wtwo).2 = false ∧
  signalsBlocked <$> (heap (update_widgets_from_properties Demo2.Wtwo).2 !! 1%nat)
    = Some false ∧
  ∃ evs, trace (update_widgets_from_properties Demo2.Wtwo).2
         = trace Demo2.Wtwo ++ evs ∧
         SetterCall 1 "setText" (VStr "t") ∈ evs.
Proof.
  destruct (update_widgets_from_properties_refreshes_all Demo2.Wtwo
              (update_widgets_from_properties Demo2.Wtwo).2)
    as (Hb & _ & Hs & evs & Ht & _ & Hall).
  - vm_compute. reflexivity.
  - split; [exact Hb|]. split.
    + apply Hs. vm_compute. apply list_elem_of_further, list_elem_of_here.
    + exists evs. split; [exact Ht|].
      apply (Hall 1%nat
               Demo2.edit
               (WidgetUpdate "textChanged" [mkGetSet "text" "setText"])
               (mkGetSet "text" "setText") [] "title"
               (UiProperty_new "title" (VStr "t") (VStr "t") VNone));
        try (vm_compute; reflexivity).
      vm_compute. apply list_elem_of_further, list_elem_of_here.
Defined.

(** X5: the value [5] of ["volume"] goes back to its default [1]. *)
Lemma reset_properties_restores_defaults_witness :
  value <$> (_properties (reset_properties false Demo2.Wtwo).2 !! "volume")
    = Some (VInt 1) ∧
  heap (reset_properties false Demo2.Wtwo).2 = heap Demo2.Wtwo.
Proof.
  destruct (reset_properties_restores_defaults false Demo2.Wtwo
              (reset_properties false Demo2.Wtwo).1
              (reset_properties false Demo2.Wtwo).2)
    as (Hp & _ & _ & _ & _ & Hh & _).
  - vm_compute. reflexivity.
  - split; [|exact Hh]. rewrite Hp. vm_compute. reflexivity.
Defined.

(** X6: the default [1] of ["volume"] reaches the progress bar. *)
Lemma reset_properties_pushes_defaults_witness :
  ∃ evs, trace (reset_properties true Demo2.Wtwo).2 = trace Demo2.Wtwo ++ evs ∧
         SetterCall 0 "setValue" (VInt 1) ∈ evs.
Proof.
  destruct (reset_properties_pushes_defaults Demo2.Wtwo
              (reset_properties true Demo2.Wtwo).2) as (evs & Ht & Hall).
  - vm_compute. reflexivity.
  - exists evs. split; [exact Ht|].
    apply (Hall 0%nat
             Demo2.bar
             (WidgetUpdate "valueChanged" [mkGetSet "value" "setValue"])
             (mkGetSet "value" "setValue") [] "volume"
             (UiProperty_new "volume" (VInt 5) (VInt 1) VNone));
      try (vm_compute; reflexivity).
    vm_compute. apply list_elem_of_here.
Defined.

(** X7 where the refresh of all widgets ends on an exception. *)
Lemma refresh_lowers_guard_witness :
  (update_widgets_from_properties Demo.Wbad).1 = Raise TypeError ∧
  _block_save (update_widgets_from_properties Demo.Wbad).2 = false ∧
  _block_save (update_widget_from_property "nothing" Demo.Wbad).2 = false.
Proof.
  destruct (refresh_lowers_guard "nothing" Demo.Wbad
              (update_widgets_from_properties Demo.Wbad).1
              (update_widgets_from_properties Demo.Wbad).2
              (update_widget_from_property "nothing" Demo.Wbad).2) as [H1 H2].
  - vm_compute. reflexivity.
  - vm_compute. reflexivity.
  - split; [vm_compute; reflexivity|]. by split.
Defined.

(** X8: refreshing ["volume"] leaves the line edit linked to ["title"] as it
    was, blocked signals included. *)
Lemma update_widget_from_property_touches_linked_only_witness :
  heap (update_widget_from_property "volume" Demo2.Wtwo).2 !! 1%nat
  = heap Demo2.Wtwo !! 1%nat.
Proof.
  destruct (update_widget_from_property_touches_linked_only "volume" Demo2.Wtwo
              (update_widget_from_property "volume" Demo2.Wtwo).1
              (update_widget_from_property "volume" Demo2.Wtwo).2) as (Hh & _).
  - vm_compute. reflexivity.
  - apply Hh.
    assert (widgets_linked_to_property "volume" Demo2.Wtwo = [0%nat]) as ->
      by (vm_compute; reflexivity).
    intros Hin. apply list_elem_of_singleton in Hin. discriminate Hin.
Defined.

(** X9 on [update_property("volume", 7)]. *)
Lemma update_property_changes_one_value_witness :
  _properties (update_property "volume" (VInt 7) Demo.W2).2
  = <["volume" := UiProperty_new "volume" (VInt 7) (VInt 0) VNone]> (_properties Demo.W2) ∧
  _listeners (update_property "volume" (VInt 7) Demo.W2).2 = _listeners Demo.W2.
Proof.
  destruct (update_property_changes_one_value "volume" (VInt 7)
              (UiProperty_new "volume" (VInt 0) (VInt 0) VNone) Demo.W2
              (update_property "volume" (VInt 7) Demo.W2).1
              (update_property "volume" (VInt 7) Demo.W2).2) as (Hp & Hl & _).
  - vm_compute. reflexivity.
  - vm_compute. reflexivity.
  - split; [exact Hp|exact Hl].
Defined.

(** X10 with the toolkit whose setters accept every value and whose
    listeners return. *)
Lemma update_property_returns_when_setters_and_listeners_return_witness :
  ∃ W', update_property (TK := accepting_toolkit) "volume" VNone Plain.W1 = (Ok tt, W') ∧
        _block_save W' = false ∧
        value <$> (_properties W' !! "volume") = Some VNone.
Proof.
  apply (update_property_returns_when_setters_and_listeners_return
           (TK := accepting_toolkit)).
  - intros t st s x. eexists _, _. reflexivity.
  - vm_compute. repeat constructor.
  - vm_compute. eauto.
Defined.

(** X19 with the toolkit whose listener [11] raises: of the listeners [10],
    [11] and [12] of ["volume"], the first two are called and the third is
    not, and the [7] stays in the record. *)
Lemma update_property_propagates_listener_exception_witness :
  ∃ W' evs,
    update_property (TK := faulty_toolkit) "volume" (VInt 7) Faulty.W3
    = (Raise RuntimeError, W') ∧
    _properties W'
    = <["volume" := UiProperty_new "volume" (VInt 7) (VInt 0) VNone]>
        (_properties Faulty.W3) ∧
    _block_save W' = false ∧
    no_listener_called evs ∧
    trace W' = trace Faulty.W3 ++ evs ++ [Called 10 (VInt 7); Called 11 (VInt 7)]%nat.
Proof.
  apply (update_property_propagates_listener_exception (TK := faulty_toolkit)
           "volume" (VInt 7) (UiProperty_new "volume" (VInt 0) (VInt 0) VNone)
           Faulty.W3 [10%nat] 11%nat [12%nat] RuntimeError).
  - intros t st s x. eexists _, _. reflexivity.
  - vm_compute. reflexivity.
  - vm_compute. reflexivity.
  - repeat constructor.
  - reflexivity.
Defined.

(** X11 on the example of the specification: 7, then back to 0. *)
Lemma update_then_reset_restores_default_witness :
  value <$> (_properties
               (reset_properties false
                  (update_property "volume" (VInt 7) Demo.W2).2).2 !! "volume")
  = Some (VInt 0).
Proof.
  destruct (update_then_reset_restores_default "volume" (VInt 7)
              (UiProperty_new "volume" (VInt 0) (VInt 0) VNone) Demo.W2
              (update_property "volume" (VInt 7) Demo.W2).1
              (reset_properties false (update_property "volume" (VInt 7) Demo.W2).2).1
              (update_property "volume" (VInt 7) Demo.W2).2
              (reset_properties false (update_property "volume" (VInt 7) Demo.W2).2).2)
    as (_ & H & _).
  - vm_compute. reflexivity.
  - vm_compute. reflexivity.
  - vm_compute. reflexivity.
  - exact H.
Defined.

(** X12 on a save of two progress bars. *)
Lemma save_properties_writes_records_only_witness :
  heap (save_properties Demo.W2).2 = heap Demo.W2 ∧
  _widgets (save_properties Demo.W2).2 = _widgets Demo.W2.
Proof.
  destruct (save_properties_writes_records_only Demo.W2
              (save_properties Demo.W2).1 (save_properties Demo.W2).2)
    as (Hh & Hw & _).
  - vm_compute. reflexivity.
  - split; [exact Hh|exact Hw].
Defined.


(** X14 on a line edit whose ["extraProperties"] reads [text] under the key
    ["shown"]. *)
Lemma widget_values_facets_witness :
  (widget_values 1 Demo2.Wtwo).2 = Demo2.Wtwo ∧
  ∀ facets, (widget_values 1 Demo2.Wtwo).1 = Ok facets →
            dict_get "shown" facets = Some (VStr "a") ∧
            dict_get "other" facets = None.
Proof.
  destruct (widget_values_facets 1 Demo2.edit
              Demo2.Wtwo (widget_values 1 Demo2.Wtwo).1 (widget_values 1 Demo2.Wtwo).2)
    as [HW Hf].
  - vm_compute. reflexivity.
  - vm_compute. reflexivity.
  - split; [exact HW|]. intros facets Hr. split.
    + destruct (Hf facets Hr "shown") as (v & Hg & Hv).
      injection Hg as <-. exact Hv.
    + exact (Hf facets Hr "other").
Defined.

(** X16 on a panel: the line edit of the panel and the progress bar two
    levels down are yielded, the push button of the panel is not. *)
Lemma iterate_linkable_properties_complete_witness :
  ("title", Tree.title) ∈ iterate_linkable_properties Tree.panel ∧
  ("level", Tree.level) ∈ iterate_linkable_properties Tree.panel ∧
  ("close", Tree.close) ∉ iterate_linkable_properties Tree.panel.
Proof.
  split; [|split].
  - apply iterate_linkable_properties_complete. exists Tree.panel.
    split; [apply list_elem_of_here|]. split; [apply list_elem_of_here|]. by eexists.
  - apply iterate_linkable_properties_complete. exists Tree.gauge.
    split; [do 2 apply list_elem_of_further; apply list_elem_of_here|].
    split; [apply list_elem_of_here|]. by eexists.
  - intros H. apply iterate_linkable_properties_complete in H as (o & _ & _ & Hs).
    by destruct Hs.
Defined.

(** X17 on two records with different names. *)
Lemma setup_properties_keys_witness :
  size (setup_properties []
          (Some [UiProperty_new "volume" (VInt 0) VNone VNone;
                 UiProperty_new "title" (VStr "t") VNone VNone])) = 2%nat.
Proof.
  destruct (setup_properties_keys []
              (Some [UiProperty_new "volume" (VInt 0) VNone VNone;
                     UiProperty_new "title" (VStr "t") VNone VNone])) as [_ H].
  destruct H as [Hsize _].
  - simpl. apply NoDup_cons. split; [|apply NoDup_singleton].
    intros Hin. apply list_elem_of_singleton in Hin. discriminate Hin.
  - exact Hsize.
Defined.

(** X18 on the progress bar whose property holds [None]. *)
Lemma update_widget_propagates_setter_exception_witness :
  update_widget 0 Demo.Wbad
  = (Raise TypeError, add_event (SetterCall 0 "setValue" VNone) Demo.Wbad).
Proof.
  apply (update_widget_propagates_setter_exception 0
           (Demo.linked QProgressBar "valueChanged" "volume" (VInt 3))
           (WidgetUpdate "valueChanged" [mkGetSet "value" "setValue"])
           (mkGetSet "value" "setValue") "volume"
           (UiProperty_new "volume" VNone VNone VNone)); vm_compute; reflexivity.
Defined.
